(** * Twicks: a shallow embedding of the inventory / sales tracker

    The development follows the layout of [src/twicks.js]:

    - [Js]       JavaScript values as the code uses them (numbers, truthiness,
                 [||] and [??] defaults, JSON values);
    - [Storage]  [localStorage] with the IndexedDB fallback, the auto-backup
                 hook on [Storage.save], the Drive snapshot and its restore;
    - [Ledger]   the click handlers of the Inventory, For Sale, Sold and Cash
                 pages, as functions on the persisted collections;
    - [Backup]   the two serverless backup endpoints
                 ([src/api/twicks-backup.js] and the Netlify function);
    - [Notions]  what the statements are written with (totals per source,
                 the buyer of a sale, example states);
    - [Util], [Maintenance], [AutoBackup], [LedgerMore]
                 the HTML escaping, the reset and the cloud backup of
                 [localStorage], the rolling Drive backup and its triggers,
                 and the rows of the Sold page;
    - [MoreNotions]  example stores and counts for their statements;
                 the lemmas and theorems follow.

    Numbers: the code computes with JavaScript numbers, which are IEEE 754
    doubles.  The model takes the primitive floats of the standard library,
    which are the same values with the same rounding; [parseFloat] returns
    [NaN] on an empty or malformed field, and an infinity on a text such as
    [Infinity] or [1e999]. *)

From Stdlib Require Import ZArith Lia Ascii String Floats.
From stdpp Require Import base option list gmap strings.

Set Warnings "-register-all,-inexact-float".

Open Scope Z_scope.
Open Scope string_scope.

(* ===================================================================== *)
(** ** JavaScript values *)
(* ===================================================================== *)

Module Js.

(** A JavaScript number is an IEEE 754 binary64 value.  The primitive
    floats of the standard library are these values, with the operations
    of the standard (round to nearest, ties to even); there is one [NaN]. *)
Definition num : Type := float.

Bind Scope float_scope with num.

Definition NaN : num := PrimFloat.nan.
Definition Infinity : num := PrimFloat.infinity.

(** [isNaN(n)] *)
Definition isNaN (n : num) : bool := PrimFloat.is_nan n.

(** [a + b] and [a - b] on numbers. *)
Definition add (a b : num) : num := PrimFloat.add a b.
Definition sub (a b : num) : num := PrimFloat.sub a b.

(** [a <= 0] and [0 < a]: every comparison with [NaN] is false. *)
Definition le0 (a : num) : bool := PrimFloat.leb a 0.
Definition gt0 (a : num) : bool := PrimFloat.ltb 0 a.
Definition lt0 (a : num) : bool := PrimFloat.ltb a 0.

(** [-Math.abs(a)] *)
Definition neg_abs (a : num) : num := PrimFloat.opp (PrimFloat.abs a).

(** Truthiness of a number: [0], [-0] and [NaN] are falsy. *)
Definition num_truthy (n : num) : bool :=
  negb (PrimFloat.eqb n 0 || PrimFloat.is_nan n).

(** [Number(x || 0)] for a numeric property that may be missing or [null]
    ([None]). *)
Definition num_or0 (x : option num) : num :=
  match x with
  | Some n => if num_truthy n then n else 0%float
  | None => 0%float
  end.

(** What is read back of a number that went through [JSON.stringify] and
    [JSON.parse]: [NaN] and the infinities are written [null] ([None]),
    negative zero is written [0], any other number is read back as it
    was. *)
Definition json_number (n : num) : option num :=
  if PrimFloat.is_nan n || PrimFloat.is_infinity n then None
  else if PrimFloat.eqb n 0 then Some 0%float
  else Some n.

(** Truthiness of a string: only the empty string is falsy. *)
Definition str_truthy (s : string) : bool :=
  negb (bool_decide (s = "")).

(** [x || d] for a string property that may be missing. *)
Definition str_or (x : option string) (d : string) : string :=
  match x with
  | Some s => if str_truthy s then s else d
  | None => d
  end.

(** Truthiness of an optional string (a prompt result, a select value). *)
Definition opt_truthy (x : option string) : bool :=
  match x with Some s => str_truthy s | None => false end.

(** JSON values, as [JSON.parse] produces them. *)
Inductive json : Type :=
  | JNull : json
  | JBool (b : bool) : json
  | JNum (z : Z) : json
  | JStr (s : string) : json
  | JArr (l : list json) : json
  | JObj (l : list (string * json)) : json.

(** Truthiness of a JSON value: arrays and objects are always truthy. *)
Definition truthy (v : json) : bool :=
  match v with
  | JNull => false
  | JBool b => b
  | JNum z => negb (bool_decide (z = 0))
  | JStr s => str_truthy s
  | JArr _ | JObj _ => true
  end.

(** [v ?? d] where [None] stands for [undefined]. *)
Definition nullish_or (v : option json) (d : json) : json :=
  match v with
  | Some JNull | None => d
  | Some x => x
  end.

(** [if (data.field)]: a missing property is falsy. *)
Definition field_truthy (v : option json) : bool :=
  match v with Some x => truthy x | None => false end.

End Js.

Import Js.

(* ===================================================================== *)
(** ** Storage ([localStorage] + IndexedDB fallback) *)
(* ===================================================================== *)

Module KEYS.
Definition BOUGHT := "twicks_bought_v1".
Definition FORSALE := "twicks_forsale_v1".
Definition SOLD := "twicks_sold_v1".
Definition SELLERS := "twicks_sellers_v1".
Definition CASH := "twicks_cash_v1".
Definition SHIP_OUT_MAP := "twicks_shipping_v1".
Definition BUYERS := "twicks_buyers_v1".
End KEYS.

Module Storage.

(** What [localStorage] holds under a key is a string.  A string is either
    the text [JSON.stringify] writes for a value, or text on which
    [JSON.parse] throws. *)
Inductive raw : Type :=
  | Serialized (v : json) : raw
  | Unparsable (s : string) : raw.

Definition JSON_stringify (v : json) : raw := Serialized v.

(** [JSON.parse]: [None] when it throws. *)
Definition JSON_parse (r : raw) : option json :=
  match r with
  | Serialized v => Some v
  | Unparsable _ => None
  end.

(** The two stores.  Whether [localStorage.getItem] / [setItem] throw
    (storage disabled, quota exceeded), whether the database opens, whether
    a read transaction can be started on it ([db.transaction], [objectStore]
    and [get] throw when the connection is closing or the object store is
    missing) and whether its requests succeed are conditions of the
    browser: fields of the state that no operation changes. *)
Record Store : Type := mkStore {
  local : gmap string raw;
  local_readable : bool;
  local_writable : bool;
  idb : option (gmap string json);
  idb_transacts : bool;
  idb_readable : bool;
  idb_writable : bool
}.

Definition set_local (m : gmap string raw) (s : Store) : Store :=
  mkStore m (local_readable s) (local_writable s) (idb s)
          (idb_transacts s) (idb_readable s) (idb_writable s).

Definition set_idb (d : gmap string json) (s : Store) : Store :=
  mkStore (local s) (local_readable s) (local_writable s) (Some d)
          (idb_transacts s) (idb_readable s) (idb_writable s).

(** The outcome of a call that may throw. *)
Inductive outcome : Type := Returned | Threw.

(** [localStorage.getItem(key)]: [None] when it throws, otherwise the
    stored string or [null]. *)
Definition getItem (key : string) (s : Store) : option (option raw) :=
  if local_readable s then Some (local s !! key) else None.

(** [localStorage.setItem(key, text)]: [None] when it throws. *)
Definition setItem (key : string) (text : raw) (s : Store) : option Store :=
  if local_writable s then Some (set_local (<[key := text]> (local s)) s)
  else None.

(** [idbGet].  The outer [None] is a rejected promise: the executor of the
    promise throws when the transaction cannot be started, and only the
    [onerror] of the request is handled.  Otherwise the result is the stored
    value, or [undefined] (the inner [None]) when the database does not
    open, when the request fails, or when the key is absent. *)
Definition idbGet (key : string) (s : Store) : option (option json) :=
  match idb s with
  | None => Some None
  | Some db =>
      if idb_transacts s
      then Some (if idb_readable s then db !! key else None)
      else None
  end.

(** [idbSet]: nothing happens when the database does not open; the promise
    rejects when the transaction cannot be started or fails. *)
Definition idbSet (key : string) (val : json) (s : Store) : outcome * Store :=
  match idb s with
  | None => (Returned, s)
  | Some db =>
      if idb_writable s then (Returned, set_idb (<[key := val]> db) s)
      else (Threw, s)
  end.

(** [Storage.load(key, fallback)]: the value the promise resolves to, or
    [None] when it rejects.  [idbGet] is awaited after the [try], so its
    rejection is the rejection of [load]. *)
Definition load (key : string) (fallback : json) (s : Store) : option json :=
  match getItem key s with
  | Some (Some r) =>
      match JSON_parse r with
      | Some parsed => Some (nullish_or (Some parsed) fallback)
      | None => Some fallback
      end
  | Some None | None =>
      match idbGet key s with
      | Some v => Some (nullish_or v fallback)
      | None => None
      end
  end.

(** The default of the second parameter: [fallback = []]. *)
Definition load_default (key : string) (s : Store) : option json :=
  load key (JArr []) s.

(** [Storage.save(key, val)] as first defined (before the hook). *)
Definition save (key : string) (val : json) (s : Store) : outcome * Store :=
  match setItem key (JSON_stringify (nullish_or (Some val) (JArr []))) s with
  | Some s' => (Returned, s')
  | None => idbSet key (nullish_or (Some val) (JArr [])) s
  end.

(** *** The auto-backup hook *)

(** The page state the hook touches: the two stores and the module state
    of [AutoBackup].  [markDirty_calls] counts the invocations of
    [AutoBackup.markDirty] (each one also re-arms the idle timer). *)
Record World : Type := mkWorld {
  store : Store;
  dirty : bool;
  markDirty_calls : nat
}.

(** [AutoBackup.markDirty()] *)
Definition markDirty (w : World) : World :=
  mkWorld (store w) true (S (markDirty_calls w)).

(** The type of the function stored in the property [Storage.save]. *)
Definition save_fn : Type := string → json → World → outcome * World.

(** The [save] of the [Storage] object literal, acting on the page state. *)
Definition Storage_save_initial : save_fn :=
  fun key val w =>
    let '(o, s') := save key val (store w) in
    (o, mkWorld s' (dirty w) (markDirty_calls w)).

(** [patchStorageSaveForAutoBackup]: replaces [Storage.save] by a function
    that awaits the previous [Storage.save] and then marks the data dirty.
    When the awaited call throws, [markDirty] is not reached. *)
Definition patchStorageSaveForAutoBackup (originalSave : save_fn) : save_fn :=
  fun key val w =>
    match originalSave key val w with
    | (Returned, w') => (Returned, markDirty w')
    | (Threw, w') => (Threw, w')
    end.

(** The script runs the patching block twice (lines 808-816 and 819-827):
    the second run wraps the function installed by the first. *)
Definition Storage_save : save_fn :=
  patchStorageSaveForAutoBackup
    (patchStorageSaveForAutoBackup Storage_save_initial).

(** *** Drive snapshot and restore *)

(** The [payload] object of [backupToDrive]; a JavaScript object is a finite
    map from property names to values.  [exportedAt] is the clock reading.
    Each [Storage.load] is awaited in turn: when one rejects, no object is
    built ([None]). *)
Definition backupToDrive_payload (exportedAt : string) (w : World)
  : option (gmap string json) :=
  let s := store w in
  bought ← load_default KEYS.BOUGHT s;
  forsale ← load_default KEYS.FORSALE s;
  sold ← load_default KEYS.SOLD s;
  cash ← load_default KEYS.CASH s;
  sellers ← load_default KEYS.SELLERS s;
  shipping ← load_default KEYS.SHIP_OUT_MAP s;
  buyers ← load_default KEYS.BUYERS s;
  Some (<["version" := JNum 3]>
        (<["exportedAt" := JStr exportedAt]>
        (<["buyers" := buyers]>
        (<["shipping" := shipping]>
        (<["sellers" := sellers]>
        (<["cash" := cash]>
        (<["sold" := sold]>
        (<["forsale" := forsale]>
        (<["bought" := bought]> ∅))))))))).

(** One line of the restore: [if (data.f) await Storage.save(key, data.f)]. *)
Definition restore_field (data : gmap string json) (field key : string)
  (w : World) : outcome * World :=
  match data !! field with
  | Some v => if truthy v then Storage_save key v w else (Returned, w)
  | None => (Returned, w)
  end.

(** Sequencing of awaited calls: a throw abandons the rest. *)
Definition and_then (c : World → outcome * World)
  (k : World → outcome * World) (w : World) : outcome * World :=
  match c w with
  | (Returned, w') => k w'
  | (Threw, w') => (Threw, w')
  end.

Infix ">>>" := and_then (at level 62, right associativity).

(** The field-by-field part of [restoreFromDrive] (lines 569-575), once the
    file is downloaded and the user has confirmed. *)
Definition restoreFromDrive_fields (data : gmap string json)
  : World → outcome * World :=
  restore_field data "bought" KEYS.BOUGHT >>>
  restore_field data "forsale" KEYS.FORSALE >>>
  restore_field data "sold" KEYS.SOLD >>>
  restore_field data "cash" KEYS.CASH >>>
  restore_field data "sellers" KEYS.SELLERS >>>
  restore_field data "shipping" KEYS.SHIP_OUT_MAP >>>
  restore_field data "buyers" KEYS.BUYERS.

End Storage.

Import Storage.

(* ===================================================================== *)
(** ** The ledger: records, collections and click handlers *)
(* ===================================================================== *)

Module Ledger.

(** A card record.  The same JavaScript object travels from the inventory
    to the listings and to the sold list, gaining properties on the way, so
    one record type with optional properties covers the three collections
    ([None] is a missing property, or [null] for a number). *)
Record item : Type := mkItem {
  id : string;
  seller : option string;
  name : option string;
  buy : option num;
  ship : option num;
  sell : option num;
  price : option num;
  ship_in : option num;
  image : option string;
  createdAt : option Z;
  buyer : option string;
  soldAt : option Z;
  status : option string
}.

(** [i.seller = s] *)
Definition set_seller (s : string) (i : item) : item :=
  mkItem (id i) (Some s) (name i) (buy i) (ship i) (sell i) (price i)
         (ship_in i) (image i) (createdAt i) (buyer i) (soldAt i) (status i).

(** [i.buyer = b] *)
Definition set_buyer (b : string) (i : item) : item :=
  mkItem (id i) (seller i) (name i) (buy i) (ship i) (sell i) (price i)
         (ship_in i) (image i) (createdAt i) (Some b) (soldAt i) (status i).

(** [i.soldAt = t] *)
Definition set_soldAt (t : Z) (i : item) : item :=
  mkItem (id i) (seller i) (name i) (buy i) (ship i) (sell i) (price i)
         (ship_in i) (image i) (createdAt i) (buyer i) (Some t) (status i).

(** [i.status = s] *)
Definition set_status (s : string) (i : item) : item :=
  mkItem (id i) (seller i) (name i) (buy i) (ship i) (sell i) (price i)
         (ship_in i) (image i) (createdAt i) (buyer i) (soldAt i) (Some s).

(** An entry of the cash ledger ([None] is an [amount] of [null]). *)
Record cashEntry : Type := mkCash {
  cash_id : string;
  source : string;
  amount : option num;
  note : string;
  cash_createdAt : Z
}.

(** The persisted collections, one field per storage key, as the handlers
    read them with [Storage.load] from the JSON text that [Storage.save]
    wrote to [localStorage].  A number a handler computes is therefore
    recorded as [json_number] reads it back.  [seller_last] and
    [buyer_last] are the raw strings kept with [Storage.localSet] ([None]
    when the key is absent); [shipping] is the map of shipping fees, [None]
    when the stored value is an array (the default of [Storage.load]) or
    another value that is not an object.  Every [Storage.load] parses a fresh copy,
    so two loads never share objects. *)
Record State : Type := mkState {
  bought : list item;
  forsale : list item;
  sold : list item;
  cash : list cashEntry;
  sellers : list string;
  buyers : list string;
  seller_last : option string;
  buyer_last : option string;
  shipping : option (gmap string (option num))
}.

Definition initial : State := mkState [] [] [] [] [] [] None None None.

Definition save_bought (l : list item) (st : State) : State :=
  mkState l (forsale st) (sold st) (cash st) (sellers st) (buyers st)
          (seller_last st) (buyer_last st) (shipping st).
Definition save_forsale (l : list item) (st : State) : State :=
  mkState (bought st) l (sold st) (cash st) (sellers st) (buyers st)
          (seller_last st) (buyer_last st) (shipping st).
Definition save_sold (l : list item) (st : State) : State :=
  mkState (bought st) (forsale st) l (cash st) (sellers st) (buyers st)
          (seller_last st) (buyer_last st) (shipping st).
Definition save_cash (l : list cashEntry) (st : State) : State :=
  mkState (bought st) (forsale st) (sold st) l (sellers st) (buyers st)
          (seller_last st) (buyer_last st) (shipping st).
Definition save_sellers (l : list string) (st : State) : State :=
  mkState (bought st) (forsale st) (sold st) (cash st) l (buyers st)
          (seller_last st) (buyer_last st) (shipping st).
Definition save_buyers (l : list string) (st : State) : State :=
  mkState (bought st) (forsale st) (sold st) (cash st) (sellers st) l
          (seller_last st) (buyer_last st) (shipping st).
Definition save_shipping (m : option (gmap string (option num))) (st : State)
  : State :=
  mkState (bought st) (forsale st) (sold st) (cash st) (sellers st)
          (buyers st) (seller_last st) (buyer_last st) m.
(** [Storage.localSet] / [Storage.localDel] on the two pointers. *)
Definition set_seller_last (p : option string) (st : State) : State :=
  mkState (bought st) (forsale st) (sold st) (cash st) (sellers st)
          (buyers st) p (buyer_last st) (shipping st).
Definition set_buyer_last (p : option string) (st : State) : State :=
  mkState (bought st) (forsale st) (sold st) (cash st) (sellers st)
          (buyers st) (seller_last st) p (shipping st).

(** *** JavaScript [Set] of strings, in insertion order *)

Definition Set_add (x : string) (s : list string) : list string :=
  if bool_decide (x ∈ s) then s else s ++ [x].

Definition Set_delete (x : string) (s : list string) : list string :=
  filter (λ y, y ≠ x) s.

(** [new Set(array)] *)
Definition Set_of (l : list string) : list string :=
  foldl (λ s x, Set_add x s) [] l.

(** [items.findIndex((x) => x.id === i)] together with the element found. *)
Definition findIndex (i : string) (items : list item) : option (nat * item) :=
  list_find (λ x, id x = i) items.

(** *** Inventory page *)

(** [addSeller(name)] *)
Definition addSeller (nm : string) (st : State) : State :=
  save_sellers
    (if str_truthy nm then Set_add nm (Set_of (sellers st))
     else Set_of (sellers st)) st.

(** [chooseSellerFlow(selectEl)]: the seller chosen, if any, and the state.
    [sel_value] is the value of the select, [answer] is
    [prompt("New seller name:")?.trim()], asked when the select shows the
    add-new option. *)
Definition chooseSellerFlow (sel_value : string) (answer : option string)
  (st : State) : option string * State :=
  if bool_decide (sel_value = "__new__") then
    if opt_truthy answer then
      let nm := default "" answer in
      (Some nm, set_seller_last (Some nm) (addSeller nm st))
    else (None, st)
  else if str_truthy sel_value
       then (Some sel_value, set_seller_last (Some sel_value) st)
       else (None, st).

(** The [change] handler of the seller select. *)
Definition sellerSelect_change (sel_value : string) (answer : option string)
  (st : State) : State :=
  if bool_decide (sel_value = "__new__")
  then (chooseSellerFlow sel_value answer st).2
  else set_seller_last (Some sel_value) st.

(** The click handler of [addBoughtBtn].  [sel_value] is the value of the
    seller select and [answer] the name typed in the add-new flow;
    [buy_in], [ship_in_], [sell_in] are the [parseFloat] of the three fields
    ([ship_in_] of the field or of ["0"] when it is empty); [has_file] tells
    whether an image was chosen; [card_name] comes from the file;
    [imageUrl] is the address the upload returns or, when it fails, the
    data URL of [Img.compress], and [None] when that rejects too, which
    ends the handler; [uid] and [now] are [Util.uid()] and [Date.now()]. *)
Definition addBought (sel_value : string) (answer : option string)
  (buy_in ship_in_ sell_in : num) (has_file : bool) (card_name : string)
  (imageUrl : option string) (uid : string) (now : Z) (st : State) : State :=
  let chosen :=
    if bool_decide (sel_value = "__new__")
    then chooseSellerFlow sel_value answer st
    else (if str_truthy sel_value then Some sel_value
          else if opt_truthy (seller_last st) then seller_last st
          else None, st) in
  match chosen with
  | (None, st) => st
  | (Some chosenSeller, st) =>
      if isNaN buy_in || negb has_file then st
      else
        match imageUrl with
        | None => st
        | Some url =>
            let it :=
              mkItem uid (Some chosenSeller) (Some card_name)
                     (json_number buy_in)
                     (json_number (if isNaN ship_in_ then 0%float
                                   else ship_in_))
                     (json_number (if isNaN sell_in then buy_in else sell_in))
                     None None (Some url) (Some now) None None None in
            set_seller_last (Some chosenSeller)
              (save_bought (it :: bought st) st)
        end
  end.

(** [priceDefault] of the list-for-sale handler. *)
Definition priceDefault (it : item) : num :=
  match sell it with
  | Some n => n
  | None => add (num_or0 (buy it)) (num_or0 (ship it))
  end.

(** The object unshifted onto the listings, as it is read back. *)
Definition listing_of (it : item) (uid : string) (now : Z) : item :=
  mkItem uid (Some (str_or (seller it) "")) (Some (str_or (name it) "Card"))
         (json_number (add (num_or0 (buy it)) (num_or0 (ship it))))
         None None (json_number (priceDefault it))
         (json_number (num_or0 (ship it)))
         (image it) (Some now) None None None.

(** The click handler of a [.list-for-sale] button. *)
Definition listForSale (i uid : string) (now : Z) (st : State) : State :=
  match findIndex i (bought st) with
  | None => st
  | Some (idx, it) =>
      let st1 := save_bought (delete idx (bought st)) st in
      save_forsale (listing_of it uid now :: forsale st1) st1
  end.

(** The click handler of a [.delete-item] button of the inventory. *)
Definition deleteBought (i : string) (confirmed : bool) (st : State) : State :=
  if confirmed then
    match findIndex i (bought st) with
    | None => st
    | Some (idx, _) => save_bought (delete idx (bought st)) st
    end
  else st.

(** The group an inventory item is shown under: [i.seller || "(No seller)"]. *)
Definition seller_bucket (i : item) : string :=
  str_or (seller i) "(No seller)".

(** The click handler of a [.seller-list] button (lines 1247-1277): every
    item of the group is listed.  [uid k] and [now k] are the results of the
    [k]-th calls of [Util.uid()] and [Date.now()] in the loop. *)
Definition listSeller (sellerName : string) (confirmed : bool)
  (uid : nat → string) (now : nat → Z) (st : State) : State :=
  if confirmed then
    let toMove := filter (λ i, seller_bucket i = sellerName) (bought st) in
    let remain := filter (λ i, seller_bucket i ≠ sellerName) (bought st) in
    let listings :=
      foldl (λ ls ki, listing_of ki.2 (uid ki.1) (now ki.1) :: ls)
            (forsale st) (imap pair toMove) in
    save_forsale listings (save_bought remain st)
  else st.

(** The click handler of [resetAll] on the collections: the three lists of
    cards are emptied. *)
Definition resetAll_cards (confirmed : bool) (st : State) : State :=
  if confirmed then save_sold [] (save_forsale [] (save_bought [] st))
  else st.

(** *** Manage Sellers modal *)

(** [showManageSellersModal] builds [sellersSet] when the modal opens. *)
Definition showManageSellersModal (st : State) : list string :=
  Set_of (sellers st).

(** [if ((i.seller || "") === name) i.seller = target] over a collection. *)
Definition retag_seller (nm target : string) (l : list item) : list item :=
  (λ i, if bool_decide (str_or (seller i) "" = nm) then set_seller target i
        else i) <$> l.

(** [if ((i.buyer || "") === name) i.buyer = target] over a collection. *)
Definition retag_buyer (nm target : string) (l : list item) : list item :=
  (λ i, if bool_decide (str_or (buyer i) "" = nm) then set_buyer target i
        else i) <$> l.

(** The rename branch of the modal's click handler.  [answer] is
    [prompt(...)?.trim()]: [None] when the prompt is cancelled.  The result
    is the updated [sellersSet] and the stored state. *)
Definition renameSeller (nm : string) (answer : option string)
  (sellersSet : list string) (st : State) : list string * State :=
  match answer with
  | None => (sellersSet, st)
  | Some nn =>
      if negb (str_truthy nn) || bool_decide (nn = nm) then (sellersSet, st)
      else
        let sellersSet := Set_add nn (Set_delete nm sellersSet) in
        let st := save_sellers sellersSet st in
        let st := save_bought (retag_seller nm nn (bought st)) st in
        let st := save_forsale (retag_seller nm nn (forsale st)) st in
        let st :=
          if bool_decide (seller_last st = Some nm)
          then set_seller_last (Some nn) st else st in
        (sellersSet, st)
  end.

(** The delete branch.  [reassignTo] is the trimmed prompt answer. *)
Definition deleteSeller (nm : string) (confirmed : bool)
  (reassignTo : option string) (sellersSet : list string) (st : State)
  : list string * State :=
  if confirmed then
    let sellersSet :=
      match reassignTo with
      | Some r => if str_truthy r then Set_add r sellersSet else sellersSet
      | None => sellersSet
      end in
    let target := if opt_truthy reassignTo then default "" reassignTo else "" in
    let st := save_bought (retag_seller nm target (bought st)) st in
    let st := save_forsale (retag_seller nm target (forsale st)) st in
    let sellersSet := Set_delete nm sellersSet in
    let st := save_sellers sellersSet st in
    let st :=
      if bool_decide (seller_last st = Some nm)
      then set_seller_last None st else st in
    (sellersSet, st)
  else (sellersSet, st).

(** *** For Sale page *)

(** [showManageBuyersModal] builds [buyersSet] when the modal opens. *)
Definition showManageBuyersModal (st : State) : list string :=
  Set_of (buyers st).

(** The rename branch of the buyers modal. *)
Definition renameBuyer (nm : string) (answer : option string)
  (buyersSet : list string) (st : State) : list string * State :=
  match answer with
  | None => (buyersSet, st)
  | Some nn =>
      if negb (str_truthy nn) || bool_decide (nn = nm) then (buyersSet, st)
      else
        let buyersSet := Set_add nn (Set_delete nm buyersSet) in
        let st := save_buyers buyersSet st in
        let st := save_sold (retag_buyer nm nn (sold st)) st in
        let st := save_forsale (retag_buyer nm nn (forsale st)) st in
        let st :=
          if bool_decide (buyer_last st = Some nm)
          then set_buyer_last (Some nn) st else st in
        (buyersSet, st)
  end.

(** The delete branch of the buyers modal; its confirmation reads
    "Existing SOLD/FS entries will keep the name." *)
Definition deleteBuyer (nm : string) (confirmed : bool)
  (buyersSet : list string) (st : State) : list string * State :=
  if confirmed then
    let buyersSet := Set_delete nm buyersSet in
    let st := save_buyers buyersSet st in
    let st :=
      if bool_decide (buyer_last st = Some nm)
      then set_buyer_last None st else st in
    (buyersSet, st)
  else (buyersSet, st).

(** [addBuyer(name)] *)
Definition addBuyer (nm : string) (st : State) : State :=
  if str_truthy nm then save_buyers (Set_add nm (Set_of (buyers st))) st
  else st.

(** [chooseBuyerFlow()], also the [change] handler of the buyer select:
    the buyer chosen, if any, and the state.  [answer] is
    [prompt("New buyer name:")?.trim()], asked when the select shows the
    add-new option. *)
Definition chooseBuyerFlow (sel_value : string) (answer : option string)
  (st : State) : option string * State :=
  if bool_decide (sel_value = "__new__") then
    if opt_truthy answer then
      let nm := default "" answer in
      (Some nm, set_buyer_last (Some nm) (addBuyer nm st))
    else (None, st)
  else if str_truthy sel_value
       then (Some sel_value, set_buyer_last (Some sel_value) st)
       else (None, st).

(** The click handler of [addForSaleBtn]: a stand-alone listing.  As in
    [addBought], [imgUrl] is [None] when the upload and the compression of
    the image both reject, which ends the handler. *)
Definition addForSale (price_in : num) (has_file : bool) (card_name : string)
  (imgUrl : option string) (uid : string) (st : State) : State :=
  if isNaN price_in || negb has_file then st
  else
    match imgUrl with
    | None => st
    | Some url =>
        save_forsale
          (mkItem uid (Some "") (Some card_name) (Some 0%float) None None
                  (json_number price_in) None (Some url) None None None None
           :: forsale st) st
    end.

(** The click handler of a [.delete-item] button of the listings. *)
Definition deleteListing (i : string) (st : State) : State :=
  save_forsale (filter (λ x, id x ≠ i) (forsale st)) st.

(** The first half of the [.mark-sold] handler: which buyer the sale goes
    to.  [sel_value] is the value of the buyer select ([""] without a
    select); when it is the add-new option, [chooseBuyerFlow] asks
    [new_buyer]; [answer] is [prompt("Buyer name:")?.trim()], asked when
    no buyer came out of the select.  A typed name is added to the registry
    and becomes the last buyer. *)
Definition resolveBuyer (sel_value : string) (new_buyer answer : option string)
  (st : State) : string * State :=
  let chosen :=
    if bool_decide (sel_value = "__new__")
    then (default "" (chooseBuyerFlow sel_value new_buyer st).1,
          (chooseBuyerFlow sel_value new_buyer st).2)
    else (sel_value, st) in
  if str_truthy chosen.1 then chosen
  else
    let b := if opt_truthy answer then default "" answer else "Unknown" in
    if str_truthy b && negb (bool_decide (b = "Unknown"))
    then (b, set_buyer_last (Some b) (addBuyer b chosen.2))
    else (b, chosen.2).

(** The click handler of a [.mark-sold] button. *)
Definition markSold (i sel_value : string) (new_buyer answer : option string)
  (now : Z) (st : State) : State :=
  let buyer_ := (resolveBuyer sel_value new_buyer answer st).1 in
  let st := (resolveBuyer sel_value new_buyer answer st).2 in
  match findIndex i (forsale st) with
  | None => st
  | Some (idx, it) =>
      let it :=
        set_status "Pending"
          (set_soldAt now
             (set_buyer (if str_truthy buyer_ then buyer_ else "Unknown") it)) in
      let st := save_forsale (delete idx (forsale st)) st in
      save_sold (it :: sold st) st
  end.

(** *** Sold page *)

(** [(i.status || "Pending") === "Paid"] *)
Definition isPaid (i : item) : bool :=
  bool_decide (str_or (status i) "Pending" = "Paid").

(** The click handler of a [.mark-paid] button. *)
Definition markPaid (i : string) (st : State) : State :=
  match findIndex i (sold st) with
  | None => st
  | Some (idx, it) => save_sold (<[idx := set_status "Paid" it]> (sold st)) st
  end.

(** The record test of the mark-all-paid loop. *)
Definition pending_of (b : string) (it : item) : bool :=
  bool_decide (str_or (buyer it) "Unknown" = b) && negb (isPaid it).

(** The click handler of a [.mark-all-paid] button of a buyer block. *)
Definition markAllPaid (b : string) (st : State) : State :=
  let changed := length (filter (λ it, pending_of b it = true) (sold st)) in
  if bool_decide (changed = 0%nat) then st
  else
    save_sold
      ((λ it, if pending_of b it then set_status "Paid" it else it)
         <$> sold st) st.

(** The click handler of a [.delete-item] button of the sold list. *)
Definition deleteSold (i : string) (confirmed : bool) (st : State) : State :=
  if confirmed then
    match findIndex i (sold st) with
    | None => st
    | Some (idx, _) => save_sold (delete idx (sold st)) st
    end
  else st.

(** [list.reduce((s, i) => s + Number(i.price || 0), 0)] *)
Definition sum_price (l : list item) : num :=
  foldl (λ s i, add s (num_or0 (price i))) 0%float l.

(** The shipping-fee map as the handlers use it: an empty object when the
    stored value is not a plain object. *)
Definition plain_object (m : option (gmap string (option num)))
  : gmap string (option num) :=
  default ∅ m.

(** The click handler of a [.set-sf] button.  [answer] is [Number(v)] of the
    trimmed prompt text, [None] when the prompt is cancelled.  The
    assignment [newMap[buyer] = n] makes or updates a property of the
    object, except under the name [__proto__] when the object has no such
    property of its own: there it calls the setter of [Object.prototype],
    which ignores a number. *)
Definition setShippingFee (b : string) (answer : option num) (st : State)
  : State :=
  match answer with
  | None => st
  | Some n =>
      if isNaN n then st
      else
        let newMap := plain_object (shipping st) in
        save_shipping
          (Some (if bool_decide (b = "__proto__")
                    && negb (bool_decide (is_Some (newMap !! b)))
                 then newMap
                 else <[b := json_number n]> newMap)) st
  end.

(** The add-to-cash flow of a buyer block: the click on [.add-to-cash]
    checks that the buyer is fully paid, then the [okAddCash] handler of the
    modal reads the source select (three options), the amount field and the
    note. *)
Definition addToCash (b src : string) (amt : num) (note_in uid : string)
  (now : Z) (st : State) : State :=
  let list := filter (λ i, str_or (buyer i) "Unknown" = b) (sold st) in
  if forallb isPaid list then
    if negb (str_truthy src) || isNaN amt || le0 amt then st
    else save_cash (mkCash uid src (json_number amt) note_in now :: cash st) st
  else st.

(** *** Cash page *)

(** [calcSoldRevenue]: the two values it returns. *)
Definition calcSoldRevenue (st : State) : num * num :=
  let paidItems := filter (λ i, isPaid i = true) (sold st) in
  let pendingItems := filter (λ i, isPaid i ≠ true) (sold st) in
  (sum_price paidItems, sum_price pendingItems).

(** [totals[k] || 0] *)
Definition total_of (totals : gmap string num) (k : string) : num :=
  num_or0 (totals !! k).

(** The three properties of the [totals] object that [Cash.render] reads,
    after the [forEach] over the cash entries.  (An entry of another source
    makes another property, which is never read.) *)
Definition cash_totals (items : list cashEntry) : gmap string num :=
  foldl (λ totals i,
           <[source i := add (total_of totals (source i))
                             (num_or0 (amount i))]> totals)
        (<["Cash" := 0%float]>
           (<["SeaBank" := 0%float]> (<["GCash" := 0%float]> ∅)))
        items.

(** What [Cash.render] displays. *)
Record cashView : Type := mkCashView {
  sumGCash : num;
  sumSea : num;
  sumCash : num;
  sumTotalCash : num;
  grandTotalCash : num;
  revPaidValue : num;
  revPendValue : num
}.

Definition render (st : State) : cashView :=
  let totals := cash_totals (cash st) in
  let onHandTotal :=
    add (add (total_of totals "GCash") (total_of totals "SeaBank"))
        (total_of totals "Cash") in
  let '(paidRevenue, pendingRevenue) := calcSoldRevenue st in
  mkCashView (total_of totals "GCash") (total_of totals "SeaBank")
             (total_of totals "Cash") onHandTotal
             (add onHandTotal paidRevenue) paidRevenue pendingRevenue.

(** The click handler of [addCashBtn]; [source_in], [amount_in] and
    [note_in] are what [readInputs] returns. *)
Definition addCash (source_in : string) (amount_in : num)
  (note_in uid : string) (now : Z) (st : State) : State :=
  if negb (str_truthy source_in) then st
  else if isNaN amount_in || le0 amount_in then st
  else
    save_cash
      (mkCash uid source_in (json_number amount_in) note_in now :: cash st) st.

(** The click handler of [deductCashBtn]. *)
Definition deductCash (source_in : string) (amount_in : num)
  (note_in uid : string) (now : Z) (st : State) : State :=
  if negb (str_truthy source_in) then st
  else if isNaN amount_in || le0 amount_in then st
  else
    save_cash
      (mkCash uid source_in (json_number (neg_abs amount_in))
              (if str_truthy note_in then note_in else "Purchase deduction")
              now :: cash st) st.

(** The click handler of a [.delete-cash] button. *)
Definition deleteCash (i : string) (st : State) : State :=
  match list_find (λ x, cash_id x = i) (cash st) with
  | None => st
  | Some (idx, _) => save_cash (delete idx (cash st)) st
  end.

(** *** Restoring a backup *)

(** The collections a backup file carries, for a file whose fields, where
    present, hold what the page itself stores: [None] is a field that is
    missing (or falsy). *)
Record backup : Type := mkBackup {
  b_bought : option (list item);
  b_forsale : option (list item);
  b_sold : option (list item);
  b_cash : option (list cashEntry);
  b_sellers : option (list string);
  b_shipping : option (option (gmap string (option num)));
  b_buyers : option (list string)
}.

(** The field-by-field part of [restoreFromDrive], on the collections: each
    field present overwrites its collection. *)
Definition restoreFromDrive_collections (data : backup) (st : State) : State :=
  mkState (default (bought st) (b_bought data))
          (default (forsale st) (b_forsale data))
          (default (sold st) (b_sold data))
          (default (cash st) (b_cash data))
          (default (sellers st) (b_sellers data))
          (default (buyers st) (b_buyers data))
          (seller_last st) (buyer_last st)
          (default (shipping st) (b_shipping data)).

(** The loop of [restoreFromCloud], on the collections: the backup lists
    keys of [localStorage] with their texts, the two pointers among them
    ([None]: the key is not listed). *)
Definition restoreFromCloud_collections (data : backup)
  (last_seller last_buyer : option string) (st : State) : State :=
  let st := restoreFromDrive_collections data st in
  let st :=
    match last_seller with
    | Some p => set_seller_last (Some p) st
    | None => st
    end in
  match last_buyer with
  | Some p => set_buyer_last (Some p) st
  | None => st
  end.

(** *** User actions *)

(** One user action with the values the handler reads: every handler of
    the page that writes one of the collections or pointers above. *)
Inductive action : Type :=
  | SellerSelectChange (sel_value : string) (answer : option string)
  | AddBought (sel_value : string) (answer : option string)
      (buy_in ship_in_ sell_in : num) (has_file : bool) (card_name : string)
      (imageUrl : option string) (uid : string) (now : Z)
  | ListForSale (i uid : string) (now : Z)
  | DeleteBought (i : string) (confirmed : bool)
  | ListSeller (sellerName : string) (confirmed : bool) (uid : nat → string)
      (now : nat → Z)
  | ResetAll (confirmed : bool)
  | RenameSeller (nm : string) (answer : option string)
  | DeleteSeller (nm : string) (confirmed : bool) (reassignTo : option string)
  | BuyerSelectChange (sel_value : string) (answer : option string)
  | AddForSale (price_in : num) (has_file : bool) (card_name : string)
      (imgUrl : option string) (uid : string)
  | DeleteListing (i : string)
  | MarkSold (i sel_value : string) (new_buyer answer : option string)
      (now : Z)
  | RenameBuyer (nm : string) (answer : option string)
  | DeleteBuyer (nm : string) (confirmed : bool)
  | MarkPaid (i : string)
  | MarkAllPaid (b : string)
  | SetShippingFee (b : string) (answer : option num)
  | AddToCash (b src : string) (amt : num) (note_in uid : string) (now : Z)
  | DeleteSold (i : string) (confirmed : bool)
  | AddCash (source_in : string) (amount_in : num) (note_in uid : string)
      (now : Z)
  | DeductCash (source_in : string) (amount_in : num) (note_in uid : string)
      (now : Z)
  | DeleteCash (i : string)
  | RestoreFromDrive (data : backup)
  | RestoreFromCloud (data : backup) (last_seller last_buyer : option string).

(** The handler an action runs.  A manage modal is opened for one click:
    the set it works on is the registry, which it saves after every change,
    so a second click in the same modal finds what reopening it would. *)
Definition run (a : action) (st : State) : State :=
  match a with
  | SellerSelectChange sv ans => sellerSelect_change sv ans st
  | AddBought sv ans b s p f n img u t =>
      addBought sv ans b s p f n img u t st
  | ListForSale i u t => listForSale i u t st
  | DeleteBought i c => deleteBought i c st
  | ListSeller nm c u t => listSeller nm c u t st
  | ResetAll c => resetAll_cards c st
  | RenameSeller nm ans => (renameSeller nm ans (showManageSellersModal st) st).2
  | DeleteSeller nm c r =>
      (deleteSeller nm c r (showManageSellersModal st) st).2
  | BuyerSelectChange sv ans => (chooseBuyerFlow sv ans st).2
  | AddForSale p f n img u => addForSale p f n img u st
  | DeleteListing i => deleteListing i st
  | MarkSold i sv nb ans t => markSold i sv nb ans t st
  | RenameBuyer nm ans => (renameBuyer nm ans (showManageBuyersModal st) st).2
  | DeleteBuyer nm c => (deleteBuyer nm c (showManageBuyersModal st) st).2
  | MarkPaid i => markPaid i st
  | MarkAllPaid b => markAllPaid b st
  | SetShippingFee b ans => setShippingFee b ans st
  | AddToCash b src amt n u t => addToCash b src amt n u t st
  | DeleteSold i c => deleteSold i c st
  | AddCash src amt n u t => addCash src amt n u t st
  | DeductCash src amt n u t => deductCash src amt n u t st
  | DeleteCash i => deleteCash i st
  | RestoreFromDrive data => restoreFromDrive_collections data st
  | RestoreFromCloud data ls lb => restoreFromCloud_collections data ls lb st
  end.

End Ledger.

(* ===================================================================== *)
(** ** The two backup endpoints *)
(* ===================================================================== *)

Module Backup.

(** A row of [twicks_backups] with the four columns the queries name. *)
Record row : Type := mkRow {
  row_id : Z;
  created_at : Z;
  label : string;
  payload : json
}.

(** Modelled from the spec: the table definition is not in the repository.
    The table is the list of its rows, newest insertion first; [id] and
    [created_at] are filled by the database on insertion (a serial number
    and the clock reading), which [next_id] and [clock] stand for. *)
Record Db : Type := mkDb {
  rows : list row;
  next_id : Z;
  clock : Z
}.

(** [INSERT INTO twicks_backups ... RETURNING ...]: the new row and the
    table after it. *)
Definition insert_row (lbl : string) (pl : json) (db : Db) : row * Db :=
  let r := mkRow (next_id db) (clock db) lbl pl in
  (r, mkDb (r :: rows db) (next_id db + 1) (clock db + 1)).

(** [SELECT ... ORDER BY created_at DESC LIMIT 1]: a row of greatest
    [created_at], the most recently inserted one among equals. *)
Definition latest_row (db : Db) : option row :=
  foldr (λ r best,
           match best with
           | Some b => if bool_decide (created_at b < created_at r)
                       then Some r else Some b
           | None => Some r
           end) None (reverse (rows db)).

(** The properties [payload] and [label] of the JSON value a request
    carries.  Both may be missing, and both are when the value is a number,
    a string, a boolean or an array: the destructuring finds neither. *)
Record body : Type := mkBody {
  body_payload : option json;
  body_label : option string
}.

(** The body of a request as the handlers get it.  Either it is unusable
    (no body, text that is not JSON, or the JSON text [null]): [req.body]
    is then falsy, and in the Netlify function [JSON.parse] or the
    destructuring throws an error with the given message.  Or it carries a
    JSON value other than [null]. *)
Inductive posted : Type :=
  | Unusable (message : string)
  | Carried (b : body).

(** [req.body || {}], destructured. *)
Definition posted_body (p : posted) : body :=
  match p with
  | Carried b => b
  | Unusable _ => mkBody None None
  end.

(** A request: its method and its body. *)
Record request : Type := mkRequest {
  method : string;
  req_body : posted
}.

(** What a response carries. *)
Inductive content : Type :=
  | Json (j : json)
  | Text (s : string)
  | Empty.

Record response : Type := mkResponse {
  statusCode : Z;
  content_of : content
}.

(** [{ id, created_at, label, payload }] of a row. *)
Definition row_json (r : row) : json :=
  JObj [("id", JNum (row_id r)); ("created_at", JNum (created_at r));
        ("label", JStr (label r)); ("payload", payload r)].

(** [label || "manual"] *)
Definition label_or_manual (l : option string) : string :=
  if opt_truthy l then default "" l else "manual".

(** [src/api/twicks-backup.js]: the default export [handler]. *)
Definition handler (req : request) (db : Db) : response * Db :=
  if bool_decide (method req = "OPTIONS") then (mkResponse 200 Empty, db)
  else if bool_decide (method req = "POST") then
    let b := posted_body (req_body req) in
    if field_truthy (body_payload b) then
      let '(r, db') :=
        insert_row (label_or_manual (body_label b))
                   (default JNull (body_payload b)) db in
      (mkResponse 200
         (Json (JObj [("success", JBool true); ("backup", row_json r)])), db')
    else
      (mkResponse 400
         (Json (JObj [("success", JBool false);
                      ("error", JStr "Missing payload")])), db)
  else if bool_decide (method req = "GET") then
    match latest_row db with
    | None =>
        (mkResponse 200
           (Json (JObj [("success", JBool false); ("backup", JNull);
                        ("error", JStr "No backups found")])), db)
    | Some r =>
        (mkResponse 200
           (Json (JObj [("success", JBool true); ("backup", row_json r)])), db)
    end
  else
    (mkResponse 405
       (Json (JObj [("success", JBool false);
                    ("error", JStr "Method not allowed")])), db).

(** The Netlify function: [exports.handler].  The [catch] answers with the
    message of the error thrown. *)
Definition netlify_handler (req : request) (db : Db) : response * Db :=
  if bool_decide (method req = "POST") then
    match req_body req with
    | Unusable message =>
        (mkResponse 500 (Json (JObj [("error", JStr message)])), db)
    | Carried b =>
        let '(r, db') :=
          insert_row (label_or_manual (body_label b))
                     (default JNull (body_payload b)) db in
        (mkResponse 200
           (Json (JObj [("success", JBool true);
                        ("saved", JObj [("id", JNum (row_id r));
                                        ("created_at", JNum (created_at r))])])),
         db')
    end
  else if bool_decide (method req = "GET") then
    (mkResponse 200
       (Json (JObj [("success", JBool true);
                    ("backup", from_option row_json JNull (latest_row db))])),
     db)
  else (mkResponse 405 (Text "Method not allowed"), db).

(** The two deployments answer every request alike. *)
Definition equivalent (h1 h2 : request → Db → response * Db) : Prop :=
  ∀ req db, h1 req db = h2 req db.

End Backup.

(* ===================================================================== *)
(** ** Notions the statements use, and example states *)
(* ===================================================================== *)

Module Notions.
Import Ledger Backup.

(** The state of the stores after [Storage.save] (whether it returns or
    throws). *)
Definition write (key : string) (val : json) (s : Store) : Store :=
  (save key val s).2.

(** [save] throws exactly when [setItem] throws and a transaction of the
    opened database fails. *)
Definition throws (s : Store) : bool :=
  negb (local_writable s) && bool_decide (is_Some (idb s))
  && negb (idb_writable s).

(** The effect of one line of the restore on the stores. *)
Definition put (k : string) (v : json) (s : Store) : Store :=
  if truthy v then write k v s else s.

(** A stateful call [c] acts on the stores as [E] does, and throws only
    when [Storage.save] throws. *)
Definition tracks (c : World → outcome * World) (E : Store → Store) : Prop :=
  ∀ w, store (c w).2 = E (store w)
       ∧ ((c w).1 = Threw → throws (store w) = true).

(** An effect that does nothing once [save] throws, and does not change
    whether it throws. *)
Definition inert (E : Store → Store) : Prop :=
  (∀ s, throws s = true → E s = s) ∧ (∀ s, throws (E s) = throws s).

(** The effect on the stores of one line of the restore. *)
Definition field_put (data : gmap string json) (field key : string)
  (s : Store) : Store :=
  match data !! field with
  | Some v => put key v s
  | None => s
  end.

(** The storage keys the restore writes, in the order of the source. *)
Definition restored_keys : list string :=
  [KEYS.BOUGHT; KEYS.FORSALE; KEYS.SOLD; KEYS.CASH; KEYS.SELLERS;
   KEYS.SHIP_OUT_MAP; KEYS.BUYERS].

(** Putting, key after key, the values a function gives. *)
Definition put_all (vals : string → json) (keys : list string) (s : Store)
  : Store :=
  foldl (λ s k, put k (vals k) s) s keys.

(** A browser where both stores work and are empty. *)
Definition empty_store : Store :=
  mkStore ∅ true true (Some ∅) true true true.

(** The same browser once [localStorage] is full: [setItem] throws. *)
Definition full_local_store : Store :=
  mkStore ∅ true false (Some ∅) true true true.

(** The fast store holds text that does not parse under ["k"], the
    secondary store holds a list under the same key. *)
Definition corrupt_store : Store :=
  mkStore {[ "k" := Unparsable "{oops" ]} true true
          (Some {[ "k" := JArr [JNum 1] ]}) true true true.

(** A browser whose database is open but cannot start a transaction (the
    connection is closing), with nothing in the fast store. *)
Definition closing_store : Store :=
  mkStore ∅ true true (Some {[ "k" := JArr [JNum 1] ]}) false true true.

(** What [Storage.load] resolves to with the default fallback ([null] when
    it rejects). *)
Definition loaded (k : string) (s : Store) : json :=
  default JNull (load_default k s).

(** A ledger holding one paid sale, before any cash movement. *)
Definition one_paid_sale : State :=
  mkState [] []
    [mkItem "s1" (Some "Ana") (Some "Card") (Some 110%float) None None
            (Some 150%float) (Some 10%float) (Some "img") (Some 1)
            (Some "Bea") (Some 2) (Some "Paid")]
    [] ["Ana"] ["Bea"] (Some "Ana") (Some "Bea") None.

(** A card entered with buy price 100, ship-in 10 and the sell field left
    empty ([parseFloat("")] is [NaN]). *)
Definition entered_item : item :=
  mkItem "u1" (Some "Ana") (Some "Card") (Some 100%float) (Some 10%float)
         (Some 100%float) None None (Some "img") (Some 1) None None None.

Definition entered_100_10 : State :=
  addBought "Ana" None 100%float 10%float NaN true "Card" (Some "img") "u1" 1
    initial.



(** The seller a record is grouped under: [i.seller || ""]. *)
Definition seller_tag (i : item) : string := str_or (seller i) "".

(** The three sources of cash the page knows. *)
Definition three_sources : list string := ["GCash"; "SeaBank"; "Cash"].

(** The total the page computes for one source:
    [(totals[s] || 0) + Number(i.amount || 0)] over the entries of the
    source, in the order of the ledger. *)
Definition source_total (k : string) (l : list cashEntry) : num :=
  foldl (λ v e, add (num_or0 (Some v)) (num_or0 (amount e))) 0%float
        (filter (λ e, source e = k) l).


(** The exact value of a finite number, as a multiple of the smallest
    positive double, 2^-1074. *)
Definition exact (n : num) : Z :=
  match Prim2SF n with
  | S754_finite s m e => cond_Zopp s (Z.pos m) * 2 ^ (e + 1074)
  | _ => 0
  end.



(** The name a sale is recorded under: [buyer || "Unknown"] after the
    buyer flow of the mark-sold handler. *)
Definition sale_buyer (sel : string) (nb answer : option string) (st : State)
  : string :=
  if str_truthy (resolveBuyer sel nb answer st).1
  then (resolveBuyer sel nb answer st).1 else "Unknown".

(** The seller the intake finds. *)
Definition chosen_seller (sel : string) (answer : option string) (st : State)
  : string :=
  if bool_decide (sel = "__new__") then default "" answer
  else if str_truthy sel then sel else default "" (seller_last st).

(** Whether the intake finds a seller: a name typed in the add-new flow,
    else the value of the select, else the last seller. *)
Definition names_seller (sel : string) (answer : option string) (st : State)
  : bool :=
  if bool_decide (sel = "__new__") then opt_truthy answer
  else str_truthy sel || opt_truthy (seller_last st).

Definition buyer_tag (i : item) : string := str_or (buyer i) "".

(** How many records of a collection carry a seller. *)
Definition tagged (nm : string) (l : list item) : nat :=
  length (filter (λ i, seller_tag i = nm) l).

(** A ledger where seller A has a card in each collection. *)
Definition card_of (i s : string) : item :=
  mkItem i (Some s) (Some "Card") (Some 100%float) (Some 10%float)
         (Some 150%float) (Some 150%float) None (Some "img") (Some 1)
         None None None.

Definition seller_A_everywhere : State :=
  mkState [card_of "b1" "A"] [card_of "f1" "A"]
    [set_status "Pending" (set_soldAt 2 (set_buyer "Bea" (card_of "s1" "A")))]
    [] ["A"] ["Bea"] (Some "A") (Some "Bea") None.

(** The choice of [latest_row] among a list of rows. *)
Definition pick_latest (l : list row) : option row :=
  foldr (λ r best,
           match best with
           | Some b => if bool_decide (created_at b < created_at r)
                       then Some r else Some b
           | None => Some r
           end) None l.

(** A manual backup request and a table with one earlier backup. *)
Definition manual_post : request :=
  mkRequest "POST" (Carried (mkBody (Some (JObj [("localStorage", JObj [])]))
                                    (Some "manual"))).

(** A GET request: it carries no body. *)
Definition get_request : request := mkRequest "GET" (Unusable "no body").

Definition one_backup : Db :=
  mkDb [mkRow 1 10 "manual" (JObj [])] 2 11.

End Notions.

(* ===================================================================== *)
(** ** More of [src/twicks.js]: helpers, maintenance, auto backup *)
(* ===================================================================== *)

Module Util.

(** The double-quote character (code 34). *)
Definition dquote : ascii := ascii_of_nat 34.

(** The replacement [Util.esc] makes for one character. *)
Definition esc_char (c : ascii) : string :=
  if Ascii.eqb c "&"%char then "&amp;"
  else if Ascii.eqb c "<"%char then "&lt;"
  else if Ascii.eqb c ">"%char then "&gt;"
  else if Ascii.eqb c dquote then "&quot;"
  else if Ascii.eqb c "'"%char then "&#39;"
  else String c EmptyString.

(** [Util.esc(s)]: the [replace] of the five characters ampersand, less
    than, greater than, double quote and apostrophe, character by
    character. *)
Fixpoint esc (s : string) : string :=
  match s with
  | EmptyString => EmptyString
  | String c rest => esc_char c ++ esc rest
  end.

(** The five characters [Util.esc] replaces. *)
Definition special (c : ascii) : bool :=
  Ascii.eqb c "&"%char || Ascii.eqb c "<"%char || Ascii.eqb c ">"%char
  || Ascii.eqb c dquote || Ascii.eqb c "'"%char.

(** The characters that open or close markup or an attribute value. *)
Definition markup (c : ascii) : bool :=
  Ascii.eqb c "<"%char || Ascii.eqb c ">"%char
  || Ascii.eqb c dquote || Ascii.eqb c "'"%char.

End Util.

Module Maintenance.

(** [Storage.localDel(key)]: [removeItem] inside a [try] whose [catch] is
    empty.  Removing throws only when the storage cannot be accessed at all,
    which is when [getItem] throws. *)
Definition localDel (key : string) (s : Store) : Store :=
  if local_readable s then set_local (delete key (local s)) s else s.

(** [Storage.localDel] on the page state; it never throws. *)
Definition localDel_page (key : string) (w : World) : outcome * World :=
  (Returned, mkWorld (localDel key (store w)) (dirty w) (markDirty_calls w)).

(** The click handler of [resetAll] (lines 1370-1385), rendering apart. *)
Definition resetAll (confirmed : bool) (w : World) : outcome * World :=
  if confirmed then
    (localDel_page KEYS.BOUGHT >>>
     localDel_page KEYS.FORSALE >>>
     localDel_page KEYS.SOLD >>>
     Storage_save KEYS.BOUGHT (JArr []) >>>
     Storage_save KEYS.FORSALE (JArr []) >>>
     Storage_save KEYS.SOLD (JArr [])) w
  else (Returned, w).

(** The payload of [backupToCloud]: [{ ...localStorage }] lists every key
    of [localStorage] with its string. *)
Definition backupToCloud_entries (s : Store) : list (string * raw) :=
  map_to_list (local s).

(** The loop of [restoreFromCloud] (lines 878-880) over the entries of
    [data.localStorage]: [localStorage.setItem] for each key, inside the
    [try] of the function, so the first throw ends the loop. *)
Fixpoint restoreFromCloud_entries (entries : list (string * raw)) (s : Store)
  : Store :=
  match entries with
  | [] => s
  | (k, v) :: rest =>
      match setItem k v s with
      | Some s' => restoreFromCloud_entries rest s'
      | None => s
      end
  end.

End Maintenance.

Module AutoBackup.

(** The Drive side of the auto backup: whether an access token is held
    ([Drive.isSignedIn()]), whether the requests to Drive succeed, and the
    content of the rolling file [twicks_autobackup.json] when it exists. *)
Record Drive : Type := mkDrive {
  signedIn : bool;
  requests_ok : bool;
  rolling : option (gmap string json)
}.

(** The module state of [AutoBackup] ([dirty] lives in the page state). *)
Record Auto : Type := mkAuto {
  page : World;
  running : bool;
  lastSerialized : option (gmap string json);
  drive : Drive
}.

(** [buildPayload]: the snapshot with [auto: true]; [None] when one of its
    [Storage.load] rejects. *)
Definition buildPayload (exportedAt : string) (w : World)
  : option (gmap string json) :=
  payload ← backupToDrive_payload exportedAt w;
  Some (<["auto" := JBool true]> payload).

(** [driveUpsertJsonRolling]: skipped silently when not signed in; a failed
    token, search or upload request throws; otherwise the file is created
    or overwritten with the object. *)
Definition driveUpsertJsonRolling (jsonObj : gmap string json) (d : Drive)
  : outcome * Drive :=
  if negb (signedIn d) then (Returned, d)
  else if requests_ok d
       then (Returned, mkDrive (signedIn d) (requests_ok d) (Some jsonObj))
       else (Threw, d).

(** [dirty = false] *)
Definition clear_dirty (w : World) : World :=
  mkWorld (store w) false (markDirty_calls w).

(** [performBackup].  [same] is the value of
    [sameSnapshot(serialized, lastSerialized)]; the [catch] logs and
    swallows the error (of [buildPayload] or of the upload), the [finally]
    resets [running]. *)
Definition performBackup (exportedAt : string) (same : bool) (a : Auto)
  : Auto :=
  if running a then a
  else if negb (dirty (page a)) then
    mkAuto (page a) false (lastSerialized a) (drive a)
  else
    match buildPayload exportedAt (page a) with
    | None => mkAuto (page a) false (lastSerialized a) (drive a)
    | Some payload =>
        if negb (dirty (page a)) && same then
          mkAuto (page a) false (lastSerialized a) (drive a)
        else
          match driveUpsertJsonRolling payload (drive a) with
          | (Returned, d) =>
              mkAuto (clear_dirty (page a)) false (Some payload) d
          | (Threw, d) => mkAuto (page a) false (lastSerialized a) d
          end
    end.

(** A timer or event trigger: [if (dirty) performBackup(reason)]. *)
Definition trigger (exportedAt : string) (same : bool) (a : Auto) : Auto :=
  if dirty (page a) then performBackup exportedAt same a else a.

(** A [Storage.save] made by the page (the module state is untouched). *)
Definition page_save (key : string) (val : json) (a : Auto) : outcome * Auto :=
  let '(o, w) := Storage_save key val (page a) in
  (o, mkAuto w (running a) (lastSerialized a) (drive a)).

End AutoBackup.

Module LedgerMore.
Import Ledger.

(** The group a sold record is shown under: [item.buyer || "Unknown"]. *)
Definition buyer_bucket (i : item) : string := str_or (buyer i) "Unknown".

(** The names of the properties of [Object.prototype]: an object literal
    has a value under each of them before anything is stored in it. *)
Definition Object_prototype_keys : list string :=
  ["constructor"; "__defineGetter__"; "__defineSetter__"; "hasOwnProperty";
   "__lookupGetter__"; "__lookupSetter__"; "isPrototypeOf";
   "propertyIsEnumerable"; "toString"; "valueOf"; "__proto__";
   "toLocaleString"].

(** [byBuyer[b]] after the grouping loop of [Sold.render]: the records of
    one buyer, in order.  [None] when the loop throws: for a buyer named
    like a property of [Object.prototype] the loop finds a value that is
    not an array, and [push] is not a function. *)
Definition byBuyer (b : string) (l : list item) : option (list item) :=
  if bool_decide (Exists (λ i, buyer_bucket i ∈ Object_prototype_keys) l)
  then None
  else Some (filter (λ i, buyer_bucket i = b) l).

(** [hasPending] and [allPaid] of a buyer row. *)
Definition hasPending (l : list item) : bool :=
  existsb (λ i, negb (isPaid i)) l.
Definition allPaid (l : list item) : bool := negb (hasPending l).

(** [gross], [sf] and [net] of a buyer row. *)
Definition row_gross (l : list item) : num := sum_price l.
Definition row_sf (m : option (gmap string (option num))) (b : string) : num :=
  match plain_object m !! b with
  | Some fee => num_or0 fee
  | None =>
      (* [shipping[buyer]] is then looked up in [Object.prototype], whose
         properties are functions and objects: [Number] of them is [NaN] *)
      if bool_decide (b ∈ Object_prototype_keys) then NaN else 0%float
  end.
Definition row_net (m : option (gmap string (option num))) (b : string)
  (l : list item) : num :=
  sub (row_gross l) (row_sf m b).

(** The identifiers of the three collections of cards. *)
Definition card_ids (st : State) : list string :=
  ((id <$> bought st) ++ (id <$> forsale st) ++ (id <$> sold st))%list.

(** The action restores a backup. *)
Definition restores (a : action) : Prop :=
  match a with
  | RestoreFromDrive _ | RestoreFromCloud _ _ _ => True
  | _ => False
  end.

(** The actions that replace the sold list as a whole. *)
Definition replaces_sold (a : action) : Prop :=
  match a with
  | ResetAll c => c = true
  | RestoreFromDrive data | RestoreFromCloud data _ _ => is_Some (b_sold data)
  | _ => False
  end.

(** The identifiers an action takes from [Util.uid()] for its cards are new
    and distinct. *)
Definition fresh_uid (a : action) (st : State) : Prop :=
  match a with
  | AddBought _ _ _ _ _ _ _ _ u _ | ListForSale _ u _
  | AddForSale _ _ _ _ u =>
      u ∉ card_ids st
  | ListSeller nm _ u _ =>
      let n := length (filter (λ i, seller_bucket i = nm) (bought st)) in
      NoDup (u <$> seq 0 n) ∧ ∀ k, (k < n)%nat → u k ∉ card_ids st
  | _ => True
  end.

End LedgerMore.

Module MoreNotions.
Import Ledger Backup Notions Maintenance AutoBackup LedgerMore.

(** [localStorage] is full and holds an old list under the cash key. *)
Definition full_with_old_cash : Store :=
  mkStore {[ KEYS.CASH := Serialized (JArr [JNum 1]) ]} true false
          (Some ∅) true true true.

(** A page whose [localStorage] is full and whose database does not open. *)
Definition no_store_page : World :=
  mkWorld (mkStore ∅ true false None true true true) false 0.

(** What a store holds under a key in IndexedDB. *)
Definition idb_at (k : string) (s : Store) : option json :=
  idb s ≫= (λ db, db !! k).

(** A store effect that leaves the key [k] alone in both stores. *)
Definition spares (k : string) (E : Store → Store) : Prop :=
  ∀ s, local (E s) !! k = local s !! k ∧ idb_at k (E s) = idb_at k s.

(** The effect on the stores of the restore of any downloaded object. *)
Definition restored (data : gmap string json) (s : Store) : Store :=
  field_put data "buyers" KEYS.BUYERS
    (field_put data "shipping" KEYS.SHIP_OUT_MAP
       (field_put data "sellers" KEYS.SELLERS
          (field_put data "cash" KEYS.CASH
             (field_put data "sold" KEYS.SOLD
                (field_put data "forsale" KEYS.FORSALE
                   (field_put data "bought" KEYS.BOUGHT s)))))).

(** A page that remembers the last seller. *)
Definition page_with_pointer : World :=
  mkWorld (mkStore {[ "twicks_last_seller" := Unparsable "Ana" ]} true true
                   (Some ∅) true true true) false 0.

(** A page with two cards and a cash entry, [localStorage] full. *)
Definition full_page : World :=
  mkWorld (mkStore {[ KEYS.BOUGHT := Serialized (JArr [JNum 1; JNum 2]);
                      KEYS.CASH := Serialized (JArr [JNum 7]) ]}
                   true false (Some {[ KEYS.SOLD := JArr [JNum 3] ]})
                   true true true) false 0.

(** Dirty data, nobody signed in to Drive. *)
Definition signed_out_dirty : Auto :=
  mkAuto (mkWorld empty_store true 2) false None (mkDrive false true None).

(** The snapshot fields with the storage keys they are read from. *)
Definition snapshot_fields : list (string * string) :=
  [("bought", KEYS.BOUGHT); ("forsale", KEYS.FORSALE); ("sold", KEYS.SOLD);
   ("cash", KEYS.CASH); ("sellers", KEYS.SELLERS);
   ("shipping", KEYS.SHIP_OUT_MAP); ("buyers", KEYS.BUYERS)].

(** A clean page, signed in to a reachable Drive. *)
Definition signed_in_clean : Auto :=
  mkAuto (mkWorld empty_store false 0) false None (mkDrive true true None).

(** The actions run one after the other. *)
Definition runs (l : list action) (st : State) : State :=
  foldl (λ s a, run a s) st l.

(** A paid record with the same identifier is in a list. *)
Definition paid_in (i : string) (l : list item) : Prop :=
  ∃ r, r ∈ l ∧ id r = i ∧ isPaid r = true.

(** How many records of a collection carry a buyer. *)
Definition bought_by (nm : string) (l : list item) : nat :=
  length (filter (λ i, buyer_tag i = nm) l).

End MoreNotions.

(* ===================================================================== *)
(** ** Properties of the JavaScript helpers *)
(* ===================================================================== *)

Module JsFacts.
Import Notions.

Lemma truthy_not_null (v : json) : truthy v = true → v ≠ JNull.
Proof. by destruct v. Qed.

Lemma nullish_or_truthy (v d : json) :
  truthy v = true → nullish_or (Some v) d = v.
Proof. by destruct v. Qed.

(** *** Numbers *)

Lemma Prim2SF_zero : Prim2SF 0 = S754_zero false.
Proof. reflexivity. Qed.

Lemma Prim2SF_infinity : Prim2SF infinity = S754_infinity false.
Proof. reflexivity. Qed.

(** A number that passes the test [isNaN(a) || a <= 0] of the cash
    handlers is a positive finite number or the positive infinity. *)
Lemma accepted_shape (a : num) :
  isNaN a = false → le0 a = false →
  Prim2SF a = S754_infinity false ∨ ∃ m e, Prim2SF a = S754_finite false m e.
Proof.
  unfold isNaN, le0, is_nan.
  rewrite FloatAxioms.eqb_spec, leb_spec, Prim2SF_zero.
  destruct (Prim2SF a) as [s|s| |s m e]; simpl.
  - by destruct s.
  - destruct s; [done|]. by left.
  - done.
  - destruct s; [done|]. intros _ _. right. eauto.
Qed.

(** Such a number is greater than zero, and is read back from JSON as it
    is unless it is the infinity, which is read back as [null]. *)
Lemma accepted_positive (a : num) :
  isNaN a = false → le0 a = false →
  gt0 a = true
  ∧ (PrimFloat.is_infinity a = true → a = Infinity)
  ∧ json_number a = (if PrimFloat.is_infinity a then None else Some a).
Proof.
  intros Hn Hl. pose proof (accepted_shape a Hn Hl) as Hs.
  unfold json_number. unfold isNaN in Hn. rewrite Hn. simpl.
  unfold gt0, is_infinity, Infinity.
  rewrite ltb_spec, !FloatAxioms.eqb_spec, abs_spec, Prim2SF_zero,
    Prim2SF_infinity.
  destruct Hs as [Hs|(m & e & Hs)].
  - rewrite Hs. simpl. split_and!; try done. intros _.
    apply Prim2SF_inj. by rewrite Hs.
  - rewrite Hs. simpl. done.
Qed.

(** Its negated absolute value is less than zero, and is read back from
    JSON as it is unless it is infinite. *)
Lemma deducted_negative (a : num) :
  isNaN a = false → le0 a = false →
  lt0 (neg_abs a) = true
  ∧ json_number (neg_abs a)
    = (if PrimFloat.is_infinity a then None else Some (neg_abs a)).
Proof.
  intros Hn Hl. pose proof (accepted_shape a Hn Hl) as Hs.
  unfold json_number, lt0, neg_abs, is_infinity, is_nan.
  rewrite ltb_spec, !FloatAxioms.eqb_spec, !abs_spec, !opp_spec, !abs_spec,
    Prim2SF_zero, Prim2SF_infinity.
  destruct Hs as [Hs|(m & e & Hs)]; rewrite Hs; simpl; [done|].
  unfold SFltb, SFeqb, SFcompare. simpl.
  rewrite Z.compare_refl. fold (Pos.compare m m). rewrite Pos.compare_refl.
  done.
Qed.

(** A number read back from JSON is finite, and is read back as itself. *)
Lemma json_number_Some (n x : num) :
  json_number n = Some x →
  isNaN x = false ∧ PrimFloat.is_infinity x = false
  ∧ json_number x = Some x.
Proof.
  unfold json_number, isNaN.
  destruct (PrimFloat.is_nan n) eqn:Hn; [done|].
  destruct (PrimFloat.is_infinity n) eqn:Hi; [done|]. simpl.
  destruct (PrimFloat.eqb n 0) eqn:Hz; intros [= <-].
  - done.
  - by rewrite Hn, Hi, Hz.
Qed.

(** A finite number is read back as a number. *)
Lemma json_number_finite (n : num) :
  isNaN n = false → PrimFloat.is_infinity n = false →
  ∃ x, json_number n = Some x ∧ json_number x = Some x.
Proof.
  intros Hn Hi. unfold isNaN in Hn.
  destruct (json_number n) as [x|] eqn:Hj.
  - exists x. split; [done|]. by apply json_number_Some in Hj as (_ & _ & ?).
  - unfold json_number in Hj. rewrite Hn, Hi in Hj. simpl in Hj.
    by destruct (PrimFloat.eqb n 0).
Qed.

(** [null] is read back exactly of [NaN] and the infinities. *)
Lemma json_number_None (n : num) :
  json_number n = None ↔ isNaN n = true ∨ PrimFloat.is_infinity n = true.
Proof.
  unfold json_number, isNaN.
  destruct (PrimFloat.is_nan n), (PrimFloat.is_infinity n),
    (PrimFloat.eqb n 0); simpl; split; try done; try (intros [?|?]; done).
  all: eauto.
Qed.

(** What a handler reads of a number it stored: the number, or zero for
    one that is not finite. *)
Lemma num_or0_json_number (n : num) :
  num_or0 (json_number n)
  = if PrimFloat.is_nan n || PrimFloat.is_infinity n then 0%float
    else num_or0 (Some n).
Proof.
  unfold json_number, num_or0, num_truthy.
  destruct (PrimFloat.is_nan n) eqn:Hn; [done|].
  destruct (PrimFloat.is_infinity n); [done|]. simpl.
  destruct (PrimFloat.eqb n 0) eqn:Hz; simpl; [done|].
  by rewrite Hz, Hn.
Qed.

Lemma str_truthy_true (s : string) : str_truthy s = true ↔ s ≠ "".
Proof.
  unfold str_truthy. case_bool_decide; simpl; split; congruence.
Qed.

Lemma str_or_truthy (s d : string) : s ≠ "" → str_or (Some s) d = s.
Proof.
  intros Hs. simpl. apply str_truthy_true in Hs. by rewrite Hs.
Qed.

End JsFacts.

(* ===================================================================== *)
(** ** Properties of the storage layer *)
(* ===================================================================== *)

Module StorageFacts.
Import JsFacts Notions.

Lemma save_outcome (key : string) (val : json) (s : Store) :
  (save key val s).1 = if throws s then Threw else Returned.
Proof.
  unfold save, setItem, idbSet, throws.
  destruct s as [l lr [] [db|] it ir []]; simpl; try reflexivity.
  all: case_bool_decide as H; simpl; try reflexivity.
  all: exfalso; apply H; eauto.
Qed.

Lemma write_throws (key : string) (val : json) (s : Store) :
  throws s = true → write key val s = s.
Proof.
  unfold write, save, setItem, idbSet, throws.
  destruct s as [l lr [] [db|] it ir []]; simpl; try discriminate; done.
Qed.

Lemma throws_write (key : string) (val : json) (s : Store) :
  throws (write key val s) = throws s.
Proof.
  unfold write, save, setItem, idbSet, throws.
  destruct s as [l lr [] [db|] it ir []]; simpl; reflexivity.
Qed.

(** Writing twice the same value is writing it once. *)
Lemma write_write (key : string) (val : json) (s : Store) :
  write key val (write key val s) = write key val s.
Proof.
  unfold write, save, setItem, idbSet, set_local, set_idb.
  destruct s as [l lr [] [db|] it ir []]; simpl; try reflexivity.
  all: by rewrite insert_insert_eq.
Qed.

(** Writes under two keys commute. *)
Lemma write_commute (k1 k2 : string) (v1 v2 : json) (s : Store) :
  k1 ≠ k2 →
  write k1 v1 (write k2 v2 s) = write k2 v2 (write k1 v1 s).
Proof.
  intros Hne. unfold write, save, setItem, idbSet, set_local, set_idb.
  destruct s as [l lr [] [db|] it ir []]; simpl; try reflexivity.
  all: by rewrite insert_insert_ne.
Qed.

(** A write under another key is not seen by [load]. *)
Lemma load_write_ne (k k' : string) (v fb : json) (s : Store) :
  k ≠ k' → load k' fb (write k v s) = load k' fb s.
Proof.
  intros Hne. unfold write, load, save, getItem, setItem, idbGet, idbSet.
  destruct s as [l [] [] [db|] [] [] []]; simpl; try reflexivity.
  all: by rewrite lookup_insert_ne.
Qed.

(** Writing back the truthy value [load] returned leaves it in place. *)
Lemma load_write_same (k : string) (v fb : json) (s : Store) :
  truthy v = true → load k fb s = Some v →
  load k fb (write k v s) = Some v.
Proof.
  intros Hv Hl. revert Hl.
  unfold write, load, save, getItem, setItem, idbGet, idbSet.
  rewrite (nullish_or_truthy v (JArr []) Hv).
  destruct s as [l [] [] [db|] [] [] []]; simpl.
  all: rewrite ?lookup_insert_eq; simpl.
  all: try (destruct (l !! k) as [r|]; simpl).
  all: rewrite ?lookup_insert_eq; simpl.
  all: intros Hl; try done; by destruct v.
Qed.

(** [load] rejects exactly when the fast store gives no text under the key
    and the opened database cannot start a transaction. *)
Lemma load_rejects (k : string) (fb : json) (s : Store) :
  load k fb s = None
  ↔ (local_readable s = false ∨ local s !! k = None)
    ∧ is_Some (idb s) ∧ idb_transacts s = false.
Proof.
  unfold load, getItem, idbGet.
  destruct s as [l [] lw [db|] [] ir iw]; simpl.
  all: try destruct (l !! k) as [r|] eqn:Hk; simpl.
  all: try destruct (JSON_parse r); simpl.
  all: split; [try discriminate|].
  all: try (intros _; split_and!; eauto; done).
  all: intros ([?|?] & [? ?] & ?); done.
Qed.

Lemma put_put (k : string) (v : json) (s : Store) :
  put k v (put k v s) = put k v s.
Proof. unfold put. destruct (truthy v); [apply write_write|done]. Qed.

Lemma put_commute (k1 k2 : string) (v1 v2 : json) (s : Store) :
  k1 ≠ k2 → put k1 v1 (put k2 v2 s) = put k2 v2 (put k1 v1 s).
Proof.
  intros Hne. unfold put. destruct (truthy v1), (truthy v2); try done.
  by apply write_commute.
Qed.

Lemma put_throws (k : string) (v : json) (s : Store) :
  throws s = true → put k v s = s.
Proof. intros H. unfold put. destruct (truthy v); [by apply write_throws|done]. Qed.

Lemma throws_put (k : string) (v : json) (s : Store) :
  throws (put k v s) = throws s.
Proof. unfold put. destruct (truthy v); [apply throws_write|done]. Qed.

(** Putting back what [load] returned changes no [load]. *)
Lemma load_put (k k' : string) (v : json) (s s0 : Store) :
  (∀ j, load_default j s = load_default j s0) →
  load_default k s0 = Some v →
  load_default k' (put k v s) = load_default k' s0.
Proof.
  intros Hs Hk. unfold put.
  destruct (truthy v) eqn:Hv; [|apply Hs].
  destruct (decide (k = k')) as [<-|Hne].
  - unfold load_default in *. rewrite Hk.
    apply load_write_same; [done|]. rewrite <- Hk. apply Hs.
  - unfold load_default in *. rewrite load_write_ne by done. apply Hs.
Qed.

End StorageFacts.

(* ===================================================================== *)
(** ** The auto-backup hook, [Storage.load], and the Drive restore *)
(* ===================================================================== *)

Module SnapshotFacts.
Import JsFacts StorageFacts Notions MoreNotions.

Lemma inert_put (k : string) (v : json) : inert (put k v).
Proof. split; intros s; [apply put_throws|apply throws_put]. Qed.

Lemma inert_id : inert (λ s, s).
Proof. by split. Qed.

Lemma inert_compose (E1 E2 : Store → Store) :
  inert E1 → inert E2 → inert (λ s, E2 (E1 s)).
Proof.
  intros [H1 H1'] [H2 H2']. split; intros s.
  - intros Hs. rewrite (H1 s Hs). by apply H2.
  - by rewrite H2', H1'.
Qed.

Lemma tracks_then (c1 c2 : World → outcome * World) (E1 E2 : Store → Store) :
  tracks c1 E1 → tracks c2 E2 → inert E1 → inert E2 →
  tracks (c1 >>> c2) (λ s, E2 (E1 s)).
Proof.
  intros T1 T2 [I1 I1'] [I2 I2'] w. unfold and_then.
  destruct (T1 w) as [Hs1 Ht1]. destruct (c1 w) as [[] w1]; simpl in *.
  - destruct (T2 w1) as [Hs2 Ht2]. rewrite Hs2, Hs1. split; [done|].
    intros Ht. apply Ht2 in Ht. by rewrite Hs1, I1' in Ht.
  - split; [|done]. specialize (Ht1 eq_refl).
    by rewrite Hs1, (I1 _ Ht1), (I2 _ Ht1).
Qed.

(** The hooked [Storage.save] acts on the stores as the first [save]. *)
Lemma Storage_save_store (k : string) (v : json) (w : World) :
  store (Storage_save k v w).2 = write k v (store w)
  ∧ (Storage_save k v w).1 = (save k v (store w)).1.
Proof.
  unfold Storage_save, patchStorageSaveForAutoBackup, Storage_save_initial,
    write.
  by destruct (save k v (store w)) as [[] s'].
Qed.

Lemma Storage_save_tracks (k : string) (v : json) :
  tracks (Storage_save k v) (write k v).
Proof.
  intros w. destruct (Storage_save_store k v w) as [Hs Ho]. split; [done|].
  rewrite Ho, save_outcome. by destruct (throws (store w)).
Qed.

(** Every successful call of the hooked [Storage.save] reaches
    [AutoBackup.markDirty] twice. *)
Lemma Storage_save_marks (k : string) (v : json) (w w' : World) :
  Storage_save k v w = (Returned, w') →
  markDirty_calls w' = S (S (markDirty_calls w)) ∧ dirty w' = true.
Proof.
  unfold Storage_save, patchStorageSaveForAutoBackup, Storage_save_initial.
  destruct (save k v (store w)) as [[] s']; simpl; [|discriminate].
  intros [= <-]. done.
Qed.

Lemma inert_field_put (data : gmap string json) (f k : string) :
  inert (field_put data f k).
Proof.
  unfold field_put. destruct (data !! f); [apply inert_put|apply inert_id].
Qed.

Lemma restore_field_tracks (data : gmap string json) (f k : string) :
  tracks (restore_field data f k) (field_put data f k).
Proof.
  intros w. unfold restore_field, field_put, put.
  destruct (data !! f) as [v|]; [|done].
  destruct (truthy v); [apply Storage_save_tracks|done].
Qed.

(** The effect on the stores of the restore of any downloaded object. *)
Lemma restoreFromDrive_fields_restored (data : gmap string json) (w : World) :
  store (restoreFromDrive_fields data w).2 = restored data (store w).
Proof.
  unfold restoreFromDrive_fields.
  pose proof (restore_field_tracks data) as T.
  pose proof (inert_field_put data) as I.
  pose proof (tracks_then _ _ _ _
    (T "shipping" KEYS.SHIP_OUT_MAP) (T "buyers" KEYS.BUYERS)
    (I _ _) (I _ _)) as T6.
  pose proof (tracks_then _ _ _ _ (T "sellers" KEYS.SELLERS) T6
    (I _ _) (inert_compose _ _ (I _ _) (I _ _))) as T5.
  pose proof (tracks_then _ _ _ _ (T "cash" KEYS.CASH) T5 (I _ _)
    (inert_compose _ _ (I _ _) (inert_compose _ _ (I _ _) (I _ _)))) as T4.
  pose proof (tracks_then _ _ _ _ (T "sold" KEYS.SOLD) T4 (I _ _)
    (inert_compose _ _ (I _ _) (inert_compose _ _ (I _ _)
       (inert_compose _ _ (I _ _) (I _ _))))) as T3.
  pose proof (tracks_then _ _ _ _ (T "forsale" KEYS.FORSALE) T3 (I _ _)
    (inert_compose _ _ (I _ _) (inert_compose _ _ (I _ _)
       (inert_compose _ _ (I _ _) (inert_compose _ _ (I _ _) (I _ _))))))
    as T2.
  pose proof (tracks_then _ _ _ _ (T "bought" KEYS.BOUGHT) T2 (I _ _)
    (inert_compose _ _ (I _ _) (inert_compose _ _ (I _ _)
       (inert_compose _ _ (I _ _) (inert_compose _ _ (I _ _)
          (inert_compose _ _ (I _ _) (I _ _))))))) as T1.
  destruct (T1 w) as [-> _]. reflexivity.
Qed.

(** The restore of a snapshot built from the stores of [w0]. *)
Lemma restoreFromDrive_fields_store (t : string) (w0 w : World)
  (p : gmap string json) :
  backupToDrive_payload t w0 = Some p →
  (∀ k, k ∈ restored_keys →
        load_default k (store w0) = Some (loaded k (store w0)))
  ∧ store (restoreFromDrive_fields p w).2
    = put_all (λ k, loaded k (store w0)) restored_keys (store w).
Proof.
  intros Hp. rewrite restoreFromDrive_fields_restored.
  unfold backupToDrive_payload in Hp. unfold loaded.
  destruct (load_default KEYS.BOUGHT (store w0)) as [v1|] eqn:H1; [|done].
  destruct (load_default KEYS.FORSALE (store w0)) as [v2|] eqn:H2; [|done].
  destruct (load_default KEYS.SOLD (store w0)) as [v3|] eqn:H3; [|done].
  destruct (load_default KEYS.CASH (store w0)) as [v4|] eqn:H4; [|done].
  destruct (load_default KEYS.SELLERS (store w0)) as [v5|] eqn:H5; [|done].
  destruct (load_default KEYS.SHIP_OUT_MAP (store w0)) as [v6|] eqn:H6;
    [|done].
  destruct (load_default KEYS.BUYERS (store w0)) as [v7|] eqn:H7; [|done].
  simpl in Hp. injection Hp as <-. split.
  - intros k Hk. unfold restored_keys in Hk.
    repeat (apply elem_of_cons in Hk as [->|Hk];
            [by rewrite ?H1, ?H2, ?H3, ?H4, ?H5, ?H6, ?H7|]).
    by apply elem_of_nil in Hk.
  - unfold put_all, restored_keys. cbn [foldl].
    rewrite H1, H2, H3, H4, H5, H6, H7. reflexivity.
Qed.

(** Folding commuting idempotent updates twice is folding them once. *)
Lemma foldl_commute {A S : Type} (g : A → S → S) (a : A) (l : list A) (s : S) :
  (∀ b t, g a (g b t) = g b (g a t)) →
  g a (foldl (λ s b, g b s) s l) = foldl (λ s b, g b s) (g a s) l.
Proof.
  intros Hc. revert s. induction l as [|b l IH]; intros s; simpl; [done|].
  by rewrite IH, Hc.
Qed.

Lemma foldl_twice {A S : Type} (g : A → S → S) (l : list A) (s : S) :
  (∀ a b t, g a (g b t) = g b (g a t)) →
  (∀ a t, g a (g a t) = g a t) →
  foldl (λ s b, g b s) (foldl (λ s b, g b s) s l) l
  = foldl (λ s b, g b s) s l.
Proof.
  intros Hc Hi. revert s. induction l as [|a l IH]; intros s; simpl; [done|].
  rewrite (foldl_commute g a l (g a s)) by (intros; apply Hc).
  by rewrite Hi, IH.
Qed.

Lemma put_all_twice (vals : string → json) (keys : list string) (s : Store) :
  put_all vals keys (put_all vals keys s) = put_all vals keys s.
Proof.
  unfold put_all.
  apply (foldl_twice (λ k s, put k (vals k) s)).
  - intros a b t. destruct (decide (a = b)) as [->|Hne]; [done|].
    by apply put_commute.
  - intros a t. apply put_put.
Qed.

(** Putting back the loaded values changes no [load]. *)
Lemma load_put_all (keys : list string) (s s0 : Store) :
  (∀ k, k ∈ keys → load_default k s0 = Some (loaded k s0)) →
  (∀ j, load_default j s = load_default j s0) →
  ∀ j, load_default j (put_all (λ k, loaded k s0) keys s)
       = load_default j s0.
Proof.
  revert s. induction keys as [|k keys IH]; intros s Hk Hs j; simpl;
    [apply Hs|].
  apply IH; [intros k' Hk'; apply Hk; by right|].
  intros j'. apply load_put; [done|]. apply Hk. by left.
Qed.

End SnapshotFacts.

Module StorageTheorems.
Import JsFacts StorageFacts SnapshotFacts Notions MoreNotions.

(** C3 (the code at the failing input): one call of [Storage.save] reaches
    [AutoBackup.markDirty] twice, not once, because the hook is installed
    twice; this holds when [localStorage] takes the write and when only
    IndexedDB does. *)
Theorem Storage_save_marks_dirty_twice :
  Storage_save KEYS.CASH (JArr [])
    (mkWorld empty_store false 0)
  = (Returned,
     mkWorld (set_local {[ KEYS.CASH := Serialized (JArr []) ]} empty_store)
             true 2)
  ∧ Storage_save KEYS.CASH (JArr [])
      (mkWorld full_local_store false 0)
    = (Returned,
       mkWorld (set_idb {[ KEYS.CASH := JArr [] ]} full_local_store) true 2).
Proof. split; reflexivity. Qed.

(** C4 (as stated, refuted): when the text of the fast store does not
    parse, [Storage.load] does not consult the secondary store: it returns
    the caller's fallback although IndexedDB holds a value under the key. *)
Lemma load_parse_error_ignores_idb :
  getItem "k" corrupt_store = Some (Some (Unparsable "{oops"))
  ∧ JSON_parse (Unparsable "{oops") = None
  ∧ idbGet "k" corrupt_store = Some (Some (JArr [JNum 1]))
  ∧ load "k" (JArr []) corrupt_store = Some (JArr [])
  ∧ load "k" (JArr []) corrupt_store
    ≠ (λ v, nullish_or v (JArr [])) <$> idbGet "k" corrupt_store.
Proof. repeat split; try reflexivity. discriminate. Qed.

(** C4 (amended): what [Storage.load] does, in terms of what the two stores
    hold.  A text in the fast store decides alone: the result is its parsed
    value (the fallback when it is [null]), or the fallback when it does not
    parse, and it is the same whatever the state of the secondary store,
    which is not read.  When the read throws or the key is absent, the
    result is the value of the secondary store under the same key, or the
    fallback when that store does not open, fails or holds nothing.  The
    result is never [null] unless the fallback is.  [load] does throw (its
    promise rejects) in exactly one case: the fast store gives no text and
    the opened database cannot start a transaction. *)
Theorem load_contract (key : string) (fallback : json) (s : Store) :
  (∀ r, local_readable s = true → local s !! key = Some r →
        load key fallback s
        = Some (match JSON_parse r with
                | Some v => nullish_or (Some v) fallback
                | None => fallback
                end)
        ∧ ∀ db tr rd wr,
            load key fallback
              (mkStore (local s) true (local_writable s) db tr rd wr)
            = load key fallback s)
  ∧ (local_readable s = false ∨ local s !! key = None →
     ∀ db, idb s = Some db → idb_transacts s = true →
           idb_readable s = true →
           load key fallback s = Some (nullish_or (db !! key) fallback))
  ∧ (local_readable s = false ∨ local s !! key = None →
     idb s = None
     ∨ idb_transacts s = true
       ∧ (idb_readable s = false ∨ ∃ db, idb s = Some db ∧ db !! key = None) →
     load key fallback s = Some fallback)
  ∧ (load key fallback s = Some JNull → fallback = JNull)
  ∧ (load key fallback s = None
     ↔ (local_readable s = false ∨ local s !! key = None)
       ∧ is_Some (idb s) ∧ idb_transacts s = false).
Proof.
  split_and!.
  - intros r Hr Hk. unfold load, getItem. simpl. rewrite Hr, Hk.
    split; [by destruct (JSON_parse r)|done].
  - intros Hl db Hdb Ht Hrd. unfold load, getItem, idbGet.
    rewrite Hdb, Ht, Hrd.
    destruct Hl as [->| ->]; [done|]. by destruct (local_readable s).
  - intros Hl Hi. unfold load, getItem, idbGet.
    assert (match idb s with
            | Some db =>
                if idb_transacts s
                then Some (if idb_readable s then db !! key else None)
                else None
            | None => Some None
            end = Some None) as Hget.
    { destruct Hi as [->|[-> [->|(db & -> & ->)]]]; try done.
      - by destruct (idb s).
      - by destruct (idb_readable s). }
    rewrite Hget.
    destruct Hl as [->| ->]; [done|]. by destruct (local_readable s).
  - unfold load, getItem, idbGet.
    destruct (local_readable s), (local s !! key) as [[v|]|],
      (idb s) as [db|], (idb_transacts s), (idb_readable s); simpl;
      try destruct (db !! key) as [x|]; simpl; try done.
    all: try (destruct v; simpl; congruence).
    all: try (destruct x; simpl; congruence).
    all: congruence.
  - apply load_rejects.
Qed.

Lemma load_contract_witness :
  load "k" (JArr []) corrupt_store = Some (JArr [])
  ∧ load "k" (JArr []) empty_store = Some (JArr [])
  ∧ load "k" (JArr []) closing_store = None.
Proof.
  split_and!.
  - apply (proj1 (proj1 (load_contract "k" (JArr []) corrupt_store)
                    (Unparsable "{oops") eq_refl eq_refl)).
  - apply (proj1 (proj2 (proj2 (load_contract "k" (JArr []) empty_store))));
      [by right|]. right. split; [done|]. right. by exists ∅.
  - apply (proj2 (proj2 (proj2 (proj2
             (load_contract "k" (JArr []) closing_store))))).
    split_and!; [by right|by eexists|done].
Defined.

Lemma put_all_ext (f g : string → json) (keys : list string) (s : Store) :
  (∀ k, f k = g k) → put_all f keys s = put_all g keys s.
Proof.
  intros Hfg. revert s.
  induction keys as [|k keys IH]; intros s; simpl; [done|].
  by rewrite Hfg, IH.
Qed.

(** The snapshot is a function of what the seven loads return. *)
Lemma backupToDrive_payload_ext (t : string) (w w' : World) :
  (∀ k, load_default k (store w) = load_default k (store w')) →
  backupToDrive_payload t w = backupToDrive_payload t w'.
Proof. intros H. unfold backupToDrive_payload. by rewrite !H. Qed.

(** Whether the snapshot can be built does not depend on the clock. *)
Lemma backupToDrive_payload_again (t1 t2 : string) (w : World)
  (p : gmap string json) :
  backupToDrive_payload t1 w = Some p →
  is_Some (backupToDrive_payload t2 w).
Proof.
  unfold backupToDrive_payload.
  destruct (load_default KEYS.BOUGHT (store w)); [|done].
  destruct (load_default KEYS.FORSALE (store w)); [|done].
  destruct (load_default KEYS.SOLD (store w)); [|done].
  destruct (load_default KEYS.CASH (store w)); [|done].
  destruct (load_default KEYS.SELLERS (store w)); [|done].
  destruct (load_default KEYS.SHIP_OUT_MAP (store w)); [|done].
  destruct (load_default KEYS.BUYERS (store w)); [|done].
  intros _. simpl. by eexists.
Qed.

(** C8: restoring the snapshot just built is idempotent on the stores,
    whether the second restore uses a snapshot built anew (which can be
    built whenever the first could) or the same snapshot again. *)
Theorem restore_buildSnapshot_idempotent (w : World) (t1 t2 : string)
  (snapshot : gmap string json) :
  backupToDrive_payload t1 w = Some snapshot →
  let once := (restoreFromDrive_fields snapshot w).2 in
  (∃ again, backupToDrive_payload t2 once = Some again
            ∧ store (restoreFromDrive_fields again once).2 = store once)
  ∧ store (restoreFromDrive_fields snapshot once).2 = store once.
Proof.
  intros Hp once.
  destruct (restoreFromDrive_fields_store t1 w w snapshot Hp) as [Hk Honce].
  fold once in Honce.
  assert (∀ j, load_default j (store once) = load_default j (store w))
    as Hloads.
  { intros j. rewrite Honce. by apply load_put_all. }
  split.
  - destruct (backupToDrive_payload_again t1 t2 w snapshot Hp)
      as [again Hagain].
    exists again. split.
    + by rewrite (backupToDrive_payload_ext t2 once w Hloads).
    + rewrite <- (backupToDrive_payload_ext t2 once w Hloads) in Hagain.
      destruct (restoreFromDrive_fields_store t2 once once again Hagain)
        as [_ ->].
      rewrite (put_all_ext _ (λ k, loaded k (store w))).
      * rewrite Honce. apply put_all_twice.
      * intros k. unfold loaded. by rewrite Hloads.
  - destruct (restoreFromDrive_fields_store t1 w once snapshot Hp) as [_ ->].
    rewrite Honce. apply put_all_twice.
Qed.

Lemma restore_buildSnapshot_idempotent_witness :
  ∃ snapshot,
    backupToDrive_payload "t" full_page = Some snapshot
    ∧ store (restoreFromDrive_fields snapshot
               (restoreFromDrive_fields snapshot full_page).2).2
      = store (restoreFromDrive_fields snapshot full_page).2.
Proof.
  eexists. split; [reflexivity|].
  apply (proj2 (restore_buildSnapshot_idempotent full_page "t" "u" _ eq_refl)).
Defined.

End StorageTheorems.

(* ===================================================================== *)
(** ** The ledger handlers *)
(* ===================================================================== *)

Module LedgerFacts.
Import JsFacts Ledger Notions.

(** [findIndex] returns the first record with the identifier. *)
Lemma findIndex_Some (i : string) (items : list item) (idx : nat) (it : item) :
  findIndex i items = Some (idx, it) → items !! idx = Some it ∧ id it = i.
Proof.
  unfold findIndex. intros H. apply list_find_Some in H as (H1 & H2 & _).
  done.
Qed.

(** Adding a buyer or a seller to its registry leaves the collections of
    cards and the cash ledger as they are. *)
Lemma chooseBuyerFlow_cards (sel : string) (answer : option string)
  (st : State) :
  let st' := (chooseBuyerFlow sel answer st).2 in
  bought st' = bought st ∧ forsale st' = forsale st
  ∧ sold st' = sold st ∧ cash st' = cash st ∧ shipping st' = shipping st
  ∧ sellers st' = sellers st ∧ seller_last st' = seller_last st.
Proof.
  unfold chooseBuyerFlow, addBuyer.
  repeat (match goal with |- context [if ?c then _ else _] => destruct c end;
          simpl); done.
Qed.

Lemma chooseSellerFlow_cards (sel : string) (answer : option string)
  (st : State) :
  let st' := (chooseSellerFlow sel answer st).2 in
  bought st' = bought st ∧ forsale st' = forsale st
  ∧ sold st' = sold st ∧ cash st' = cash st ∧ shipping st' = shipping st
  ∧ buyers st' = buyers st ∧ buyer_last st' = buyer_last st.
Proof.
  unfold chooseSellerFlow, addSeller.
  repeat (match goal with |- context [if ?c then _ else _] => destruct c end;
          simpl); done.
Qed.

(** Resolving the buyer leaves the collections of cards and the cash
    ledger as they are. *)
Lemma resolveBuyer_cards (sel : string) (nb answer : option string)
  (st : State) :
  let st' := (resolveBuyer sel nb answer st).2 in
  bought st' = bought st ∧ forsale st' = forsale st
  ∧ sold st' = sold st ∧ cash st' = cash st ∧ shipping st' = shipping st
  ∧ sellers st' = sellers st ∧ seller_last st' = seller_last st.
Proof.
  unfold resolveBuyer.
  destruct (chooseBuyerFlow_cards sel nb st) as (H1 & H2 & H3 & H4 & H5 & H6 & H7).
  destruct (bool_decide (sel = "__new__")); simpl.
  - destruct (str_truthy (default "" (chooseBuyerFlow sel nb st).1));
      simpl; [done|].
    unfold addBuyer.
    repeat (match goal with |- context [if ?c then _ else _] => destruct c end;
            simpl); done.
  - destruct (str_truthy sel); simpl; [done|].
    unfold addBuyer.
    repeat (match goal with |- context [if ?c then _ else _] => destruct c end;
            simpl); done.
Qed.


(** What [markSold] does to the collections, whatever the buyer flow. *)
Lemma markSold_found (i sel : string) (nb answer : option string) (now : Z)
  (st : State) (idx : nat) (it : item) :
  findIndex i (forsale st) = Some (idx, it) →
  forsale (markSold i sel nb answer now st) = delete idx (forsale st)
  ∧ sold (markSold i sel nb answer now st)
    = set_status "Pending"
        (set_soldAt now (set_buyer (sale_buyer sel nb answer st) it))
      :: sold st
  ∧ bought (markSold i sel nb answer now st) = bought st
  ∧ cash (markSold i sel nb answer now st) = cash st.
Proof.
  intros Hf. unfold markSold, sale_buyer.
  destruct (resolveBuyer_cards sel nb answer st) as (Hb & Hfs & Hs & Hc & _).
  rewrite Hfs, Hf. simpl. rewrite Hs, Hb, Hc. done.
Qed.

Lemma markSold_missing (i sel : string) (nb answer : option string) (now : Z)
  (st : State) :
  findIndex i (forsale st) = None →
  forsale (markSold i sel nb answer now st) = forsale st
  ∧ sold (markSold i sel nb answer now st) = sold st
  ∧ bought (markSold i sel nb answer now st) = bought st
  ∧ cash (markSold i sel nb answer now st) = cash st.
Proof.
  intros Hf. unfold markSold.
  destruct (resolveBuyer_cards sel nb answer st) as (Hb & Hfs & Hs & Hc & _).
  by rewrite Hfs, Hf.
Qed.

(** With unique identifiers, deleting the record found leaves no record
    with its identifier. *)
Lemma delete_found_gone (l : list item) (idx : nat) (it : item) :
  NoDup (id <$> l) → l !! idx = Some it →
  ∀ x, x ∈ delete idx l → id x ≠ id it.
Proof.
  revert idx. induction l as [|a l IH]; intros idx Hnd Hl x Hx; [done|].
  rewrite fmap_cons in Hnd. apply NoDup_cons in Hnd as [Ha Hnd].
  destruct idx as [|k]; simpl in *.
  - injection Hl as <-. intros Heq. apply Ha. rewrite <- Heq.
    by apply list_elem_of_fmap_2.
  - apply elem_of_cons in Hx as [->|Hx].
    + intros Heq. apply Ha. rewrite Heq.
      apply list_elem_of_fmap_2. by eapply list_elem_of_lookup_2.
    + by eapply IH.
Qed.

End LedgerFacts.

Module LedgerTheorems.
Import JsFacts Ledger LedgerFacts Notions.

(** *** Inventory to listing, listing to sold *)

Lemma findIndex_head (it : item) (l : list item) :
  findIndex (id it) (it :: l) = Some (0%nat, it).
Proof. unfold findIndex. simpl. by rewrite decide_True. Qed.

(** C2 (as stated, refuted): the card of the example is stored with
    [sell = 100], and its listing is priced 100, not 110, which is what
    buy + ship-in would give. *)
Lemma intake_example_priced_100 :
  bought entered_100_10 = [entered_item]
  ∧ price <$> forsale (listForSale "u1" "u2" 2 entered_100_10)
    = [Some 100%float]
  ∧ add (num_or0 (buy entered_item)) (num_or0 (ship entered_item)) = 110%float
  ∧ price <$> forsale (listForSale "u1" "u2" 2 entered_100_10)
    ≠ [Some 110%float].
Proof.
  repeat split; try reflexivity.
  intros H. discriminate H.
Qed.

(** What the intake stores. *)
Lemma addBought_stores (sel : string) (ans : option string) (b s p : num)
  (f : bool) (nm : string) (img : option string) (u : string) (t : Z)
  (st : State) :
  let st' := addBought sel ans b s p f nm img u t st in
  forsale st' = forsale st ∧ sold st' = sold st ∧ cash st' = cash st
  ∧ bought st'
    = match img with
      | Some url =>
          if names_seller sel ans st && negb (isNaN b) && f
          then mkItem u (Some (chosen_seller sel ans st)) (Some nm)
                 (json_number b)
                 (json_number (if isNaN s then 0%float else s))
                 (json_number (if isNaN p then b else p))
                 None None (Some url) (Some t) None None None :: bought st
          else bought st
      | None => bought st
      end.
Proof.
  unfold addBought, names_seller, chosen_seller, chooseSellerFlow, addSeller.
  destruct (bool_decide (sel = "__new__")).
  - destruct ans as [a|]; simpl; [|by destruct img].
    destruct (str_truthy a) eqn:Ha; simpl; [|by destruct img].
    destruct (isNaN b), f, img; simpl; done.
  - destruct (str_truthy sel) eqn:Hs; simpl.
    + destruct (isNaN b), f, img; simpl; done.
    + destruct (seller_last st) as [l|]; simpl; [|by destruct img].
      destruct (str_truthy l); simpl; [|by destruct img].
      destruct (isNaN b), f, img; simpl; done.
Qed.

(** C2 (amended): the listing made from an inventory item is priced at the
    item's [sell] when the property is present, else at buy + ship-in.  The
    intake stores an item exactly when it finds a seller (typed in the
    add-new flow, selected, or the last one), the buy price is a number, a
    file is chosen and an image address is obtained.  The item stored
    carries as [sell] the entered sell price, or the buy price when the
    field is empty or not a number; a price that is not finite is stored as
    [null].  So the listing of a card just entered is priced at that [sell]
    whenever it is finite, whatever its ship-in, and at buy + ship-in only
    when it is not. *)
Theorem listForSale_price (i uid : string) (now : Z) (st : State)
  (sel : string) (ans : option string) (b s p : num) (f : bool) (nm : string)
  (img : option string) (u : string) (t : Z) :
  (∀ idx it, findIndex i (bought st) = Some (idx, it) →
     ∃ l, forsale (listForSale i uid now st) = l :: forsale st
          ∧ (∀ n, sell it = Some n → price l = json_number n)
          ∧ (sell it = None →
             price l
             = json_number (add (num_or0 (buy it)) (num_or0 (ship it)))))
  ∧ (let st' := addBought sel ans b s p f nm img u t st in
     (names_seller sel ans st = false ∨ isNaN b = true ∨ f = false
      ∨ img = None → bought st' = bought st)
     ∧ (names_seller sel ans st = true → isNaN b = false → f = true →
        is_Some img →
        ∃ e l, bought st' = e :: bought st
             ∧ forsale (listForSale u uid now st') = l :: forsale st'
             ∧ id e = u ∧ seller e = Some (chosen_seller sel ans st)
             ∧ buy e = json_number b
             ∧ sell e = json_number (if isNaN p then b else p)
             ∧ (isNaN p = true → sell e = buy e)
             ∧ (PrimFloat.is_infinity (if isNaN p then b else p) = false →
                is_Some (sell e) ∧ price l = sell e)
             ∧ (PrimFloat.is_infinity (if isNaN p then b else p) = true →
                sell e = None
                ∧ price l
                  = json_number (add (num_or0 (buy e)) (num_or0 (ship e)))))).
Proof.
  split.
  - intros idx it Hf. eexists. unfold listForSale. rewrite Hf. simpl.
    split; [reflexivity|]. unfold listing_of, priceDefault. simpl. split.
    + by intros n ->.
    + by intros ->.
  - intros st'.
    destruct (addBought_stores sel ans b s p f nm img u t st)
      as (Hfs & _ & _ & Hb).
    fold st' in Hfs, Hb. split.
    + intros H. rewrite Hb. destruct img as [url|]; [|done].
      destruct H as [->|[->|[->|?]]]; try done;
        by rewrite ?andb_false_r.
    + intros Hs Hn -> [url ->]. rewrite Hs, Hn in Hb. simpl in Hb.
      eexists. eexists. split; [exact Hb|].
      unfold listForSale. rewrite Hb.
      match goal with
      | |- context [findIndex u (?e :: ?l)] =>
          change (findIndex u (e :: l)) with (findIndex (id e) (e :: l));
          rewrite (findIndex_head e l)
      end.
      simpl. split; [reflexivity|]. split_and!; try reflexivity.
      * intros Hp. by rewrite Hp.
      * intros Hi. unfold listing_of, priceDefault. simpl.
        destruct (json_number_finite (if isNaN p then b else p))
          as (n & -> & Hj); [by destruct (isNaN p) eqn:Hp|done|].
        split; [by eexists|done].
      * intros Hi. unfold listing_of, priceDefault. simpl.
        assert (json_number (if isNaN p then b else p) = None) as ->
          by (apply json_number_None; by right).
        done.
Qed.

Lemma listForSale_price_witness :
  ∃ e l, bought entered_100_10 = e :: bought initial
       ∧ forsale (listForSale "u1" "u2" 2 entered_100_10)
         = l :: forsale entered_100_10
       ∧ sell e = Some 100%float ∧ price l = Some 100%float.
Proof.
  destruct (proj2 (proj2 (listForSale_price "u1" "u2" 2 initial
                     "Ana" None 100 10 NaN true "Card" (Some "img") "u1" 1))
              eq_refl eq_refl eq_refl (mk_is_Some _ _ eq_refl))
    as (e & l & Hb & Hl & _ & _ & _ & Hs & _ & Hp & _).
  exists e, l. split; [exact Hb|]. split; [exact Hl|].
  split; [exact Hs|]. rewrite (proj2 (Hp eq_refl)). exact Hs.
Defined.




(** *** Renaming and deleting sellers and buyers *)

Lemma elem_of_Set_add (x y : string) (s : list string) :
  y ∈ Set_add x s ↔ y = x ∨ y ∈ s.
Proof.
  unfold Set_add. case_bool_decide as Hx.
  - split; [by right|]. intros [->|]; done.
  - rewrite elem_of_app, list_elem_of_singleton. tauto.
Qed.

Lemma elem_of_Set_delete (x y : string) (s : list string) :
  y ∈ Set_delete x s ↔ y ≠ x ∧ y ∈ s.
Proof. unfold Set_delete. by rewrite list_elem_of_filter. Qed.

Lemma seller_tag_set (s : string) (i : item) :
  s ≠ "" → seller_tag (set_seller s i) = s.
Proof. intros Hs. unfold seller_tag. simpl. by apply str_or_truthy. Qed.

Lemma seller_tag_Some (s : string) (i : item) :
  seller i = Some s → seller_tag i = s.
Proof.
  unfold seller_tag. intros ->. simpl. unfold str_truthy.
  by case_bool_decide.
Qed.

(** After a retag towards another non-empty name no record carries the
    old one. *)
Lemma retag_seller_none_left (nm target : string) (l : list item) (i : item) :
  target ≠ "" → target ≠ nm → i ∈ retag_seller nm target l →
  seller_tag i ≠ nm.
Proof.
  intros Ht Hne Hi. unfold retag_seller in Hi.
  apply list_elem_of_fmap in Hi as (x & -> & _).
  case_bool_decide as Hx; [|done].
  by rewrite seller_tag_set.
Qed.

(** The records that carried the old name are counted under the new one. *)
Lemma retag_seller_count (nm target : string) (l : list item) :
  target ≠ "" → target ≠ nm →
  tagged target (retag_seller nm target l)
  = (tagged nm l + tagged target l)%nat.
Proof.
  intros Ht Hne. unfold tagged, retag_seller.
  induction l as [|x l IH]; [done|].
  rewrite fmap_cons, !filter_cons.
  fold (seller_tag x). destruct (decide (seller_tag x = nm)) as [Hx|Hx].
  - rewrite bool_decide_eq_true_2 by done.
    rewrite decide_True by (by apply seller_tag_set).
    rewrite decide_False by congruence. simpl. by rewrite IH.
  - rewrite bool_decide_eq_false_2 by done.
    destruct (decide (seller_tag x = target)); simpl; rewrite IH; lia.
Qed.

(** A retag acts record by record, at the same position. *)
Lemma retag_seller_lookup (nm target : string) (l : list item) (k : nat)
  (i : item) :
  l !! k = Some i →
  ∃ i', retag_seller nm target l !! k = Some i'
        ∧ (seller_tag i = nm → i' = set_seller target i)
        ∧ (seller_tag i ≠ nm → i' = i).
Proof.
  intros Hk. unfold retag_seller. rewrite list_lookup_fmap, Hk. simpl.
  eexists. split; [reflexivity|]. fold (seller_tag i).
  case_bool_decide; split; done.
Qed.

(** C1 (as stated, refuted): after renaming seller A to B, a scan of the
    sold collection still finds a record with seller A. *)
Lemma renameSeller_leaves_sold :
  seller <$> sold (run (RenameSeller "A" (Some "B")) seller_A_everywhere)
  = [Some "A"]
  ∧ ¬ (∀ r : item,
         r ∈ (bought (run (RenameSeller "A" (Some "B")) seller_A_everywhere)
              ++ forsale (run (RenameSeller "A" (Some "B")) seller_A_everywhere)
              ++ sold (run (RenameSeller "A" (Some "B")) seller_A_everywhere))%list →
         seller r ≠ Some "A").
Proof.
  split; [reflexivity|]. intros H.
  apply (H (set_status "Pending"
              (set_soldAt 2 (set_buyer "Bea" (card_of "s1" "A")))));
    [|reflexivity].
  rewrite !elem_of_app. right. right.
  assert (sold (run (RenameSeller "A" (Some "B")) seller_A_everywhere)
          = [set_status "Pending"
               (set_soldAt 2 (set_buyer "Bea" (card_of "s1" "A")))])
    as -> by reflexivity.
  left.
Qed.

(** C1 (amended): renaming seller A to a non-empty B different from A
    updates every record of the inventory and of the listings tagged A: no
    record of these two collections is left with seller A, the records
    that were tagged A are counted under B, the collections keep their
    length, and the last-seller pointer follows when it was A.  The registry
    drops A and holds B.  The sold records are not touched. *)
Theorem renameSeller_cascade (A B : string) (sellersSet : list string)
  (st : State) :
  B ≠ "" → A ≠ B →
  let st' := (renameSeller A (Some B) sellersSet st).2 in
  (∀ i : item, i ∈ (bought st' ++ forsale st')%list →
        seller_tag i ≠ A ∧ seller i ≠ Some A)
  ∧ tagged B (bought st') = (tagged A (bought st) + tagged B (bought st))%nat
  ∧ tagged B (forsale st')
    = (tagged A (forsale st) + tagged B (forsale st))%nat
  ∧ length (bought st') = length (bought st)
  ∧ length (forsale st') = length (forsale st)
  ∧ sold st' = sold st
  ∧ (seller_last st = Some A → seller_last st' = Some B)
  ∧ (seller_last st ≠ Some A → seller_last st' = seller_last st)
  ∧ (A ∉ sellers st') ∧ (B ∈ sellers st').
Proof.
  intros HB HAB st'. subst st'. unfold renameSeller.
  assert (str_truthy B = true) as HBt by (by apply str_truthy_true).
  rewrite HBt, (bool_decide_eq_false_2 (B = A)) by congruence.
  cbv zeta beta iota. unfold negb, orb.
  assert (∀ s, (if bool_decide (seller_last s = Some A)
                then set_seller_last (Some B) s else s)
               = set_seller_last
                   (if bool_decide (seller_last s = Some A)
                    then Some B else seller_last s) s) as Hptr.
  { intros s. case_bool_decide; [done|by destruct s]. }
  rewrite Hptr. simpl.
  split; [|repeat split].
  - intros i Hi.
    assert (seller_tag i ≠ A) as Htag.
    { apply elem_of_app in Hi as [Hi|Hi];
        by apply (retag_seller_none_left A B _ i) in Hi. }
    split; [done|]. intros Hs. by apply seller_tag_Some in Hs.
  - by apply retag_seller_count.
  - by apply retag_seller_count.
  - unfold retag_seller. apply length_fmap.
  - unfold retag_seller. apply length_fmap.
  - intros ->. by rewrite bool_decide_eq_true_2.
  - intros Hl. by rewrite bool_decide_eq_false_2.
  - rewrite elem_of_Set_add, elem_of_Set_delete. intros [?|[? _]]; done.
  - rewrite elem_of_Set_add. by left.
Qed.

Lemma renameSeller_cascade_witness :
  tagged "B" (bought (run (RenameSeller "A" (Some "B")) seller_A_everywhere))
  = (tagged "A" (bought seller_A_everywhere)
     + tagged "B" (bought seller_A_everywhere))%nat.
Proof.
  apply (renameSeller_cascade "A" "B"
           (showManageSellersModal seller_A_everywhere) seller_A_everywhere);
    discriminate.
Defined.

(** C6 (as stated, refuted): deleting a buyer does not clear the buyer of
    the records that reference it. *)
Lemma deleteBuyer_keeps_records :
  buyer <$> sold seller_A_everywhere = [Some "Bea"]
  ∧ buyers (run (DeleteBuyer "Bea" true) seller_A_everywhere) = []
  ∧ buyer <$> sold (run (DeleteBuyer "Bea" true) seller_A_everywhere)
    = [Some "Bea"]
  ∧ buyer <$> sold (run (DeleteBuyer "Bea" true) seller_A_everywhere)
    ≠ [Some ""].
Proof. repeat split; try reflexivity. discriminate. Qed.

(** C6 (amended): deleting a seller removes the name from the registry and
    sets the seller of every inventory and listing record that references
    it to the reassignment target when one is given, to the empty string
    otherwise; the other records and the sold list are unchanged.  Deleting
    a buyer removes the name from the registry only: the records keep the
    buyer's name. *)
Theorem deleteParty_effect (nm : string) (reassignTo : option string)
  (sellersSet buyersSet : list string) (st : State) :
  let target := if opt_truthy reassignTo then default "" reassignTo else "" in
  let st1 := (deleteSeller nm true reassignTo sellersSet st).2 in
  let st2 := (deleteBuyer nm true buyersSet st).2 in
  (nm ∉ sellers st1)
  ∧ (∀ k i, bought st !! k = Some i →
       ∃ i', bought st1 !! k = Some i'
             ∧ (seller_tag i = nm → i' = set_seller target i)
             ∧ (seller_tag i ≠ nm → i' = i))
  ∧ (∀ k i, forsale st !! k = Some i →
       ∃ i', forsale st1 !! k = Some i'
             ∧ (seller_tag i = nm → i' = set_seller target i)
             ∧ (seller_tag i ≠ nm → i' = i))
  ∧ sold st1 = sold st
  ∧ (nm ∉ buyers st2)
  ∧ bought st2 = bought st ∧ forsale st2 = forsale st ∧ sold st2 = sold st.
Proof.
  intros target st1 st2. subst st1 st2. unfold deleteSeller, deleteBuyer.
  assert (∀ (s : State),
            (if bool_decide (seller_last s = Some nm)
             then set_seller_last None s else s)
            = set_seller_last
                (if bool_decide (seller_last s = Some nm)
                 then None else seller_last s) s) as Hptr.
  { intros s. case_bool_decide; [done|by destruct s]. }
  assert (∀ (s : State),
            (if bool_decide (buyer_last s = Some nm)
             then set_buyer_last None s else s)
            = set_buyer_last
                (if bool_decide (buyer_last s = Some nm)
                 then None else buyer_last s) s) as Hptr'.
  { intros s. case_bool_decide; [done|by destruct s]. }
  cbv zeta beta iota. rewrite Hptr, Hptr'. simpl.
  split; [|split; [|split; [|repeat split]]].
  - rewrite elem_of_Set_delete. by intros [? _].
  - intros k i Hk. by apply retag_seller_lookup.
  - intros k i Hk. by apply retag_seller_lookup.
  - rewrite elem_of_Set_delete. by intros [? _].
Qed.

(** *** The cash page *)

Lemma isPaid_true (i : item) : isPaid i = true ↔ status i = Some "Paid".
Proof.
  unfold isPaid. rewrite bool_decide_eq_true.
  destruct (status i) as [s|]; simpl; [|split; discriminate].
  unfold str_truthy. case_bool_decide as Hs; simpl.
  - subst s. split; discriminate.
  - split; congruence.
Qed.

(** The property of [totals] under a source holds the total of the entries
    of that source, once it holds a number. *)
Lemma cash_totals_from (k : string) (v : num) (l : list cashEntry)
  (totals : gmap string num) :
  totals !! k = Some v →
  foldl (λ totals i,
           <[source i := add (total_of totals (source i))
                             (num_or0 (amount i))]> totals) totals l !! k
  = Some (foldl (λ v e, add (num_or0 (Some v)) (num_or0 (amount e))) v
            (filter (λ e, source e = k) l)).
Proof.
  revert v totals. induction l as [|e l IH]; intros v totals Hk; [done|].
  simpl. destruct (decide (source e = k)) as [He|He].
  - rewrite filter_cons_True by done. simpl. apply IH.
    rewrite He, lookup_insert_eq. unfold total_of. by rewrite Hk.
  - rewrite filter_cons_False by done. apply IH.
    by rewrite lookup_insert_ne.
Qed.

Lemma cash_totals_source (k : string) (l : list cashEntry) :
  k ∈ three_sources →
  total_of (cash_totals l) k = num_or0 (Some (source_total k l)).
Proof.
  intros Hk. unfold total_of, cash_totals, source_total.
  rewrite (cash_totals_from k 0%float); [done|].
  unfold three_sources in Hk.
  repeat (apply elem_of_cons in Hk as [->|Hk]; [done|]).
  by apply elem_of_nil in Hk.
Qed.


(** An entry whose amount is [null] leaves the total of every source as
    it is. *)
Lemma source_total_null_entry (k : string) (e : cashEntry)
  (l : list cashEntry) :
  amount e = None → source_total k (e :: l) = source_total k l.
Proof.
  intros Ha. unfold source_total. rewrite filter_cons.
  destruct (decide (source e = k)); [|done]. simpl. by rewrite Ha.
Qed.

(** C10 (the code at the failing input): the amount [Infinity], which
    [parseFloat] reads of the text "Infinity" or "1e999" typed in the
    amount field, is a number and is not [<= 0], so the add and the deduct
    button accept it under any source; the entry they insert is stored with
    the amount [null], neither positive nor negative, and the totals of the
    page count it as zero. *)
Theorem cash_entry_of_Infinity (src note_in uid : string) (now : Z)
  (st : State) :
  src ≠ "" →
  isNaN Infinity = false ∧ le0 Infinity = false
  ∧ json_number Infinity = None ∧ json_number (neg_abs Infinity) = None
  ∧ cash (addCash src Infinity note_in uid now st)
    = mkCash uid src None note_in now :: cash st
  ∧ cash (deductCash src Infinity note_in uid now st)
    = mkCash uid src None
        (if str_truthy note_in then note_in else "Purchase deduction") now
      :: cash st
  ∧ render (addCash src Infinity note_in uid now st) = render st
  ∧ render (deductCash src Infinity note_in uid now st) = render st.
Proof.
  intros Hsrc. apply str_truthy_true in Hsrc as Ht.
  unfold addCash, deductCash. rewrite Ht. simpl.
  split_and!; try reflexivity.
  all: unfold render; simpl.
  all: rewrite !cash_totals_source by (unfold three_sources; set_solver).
  all: by rewrite !source_total_null_entry.
Qed.

Lemma cash_entry_of_Infinity_witness :
  cash (addCash "GCash" Infinity "n" "c1" 3 one_paid_sale)
  = [mkCash "c1" "GCash" None "n" 3]
  ∧ render (addCash "GCash" Infinity "n" "c1" 3 one_paid_sale)
    = render one_paid_sale.
Proof.
  destruct (cash_entry_of_Infinity "GCash" "n" "c1" 3 one_paid_sale
              ltac:(discriminate)) as (_ & _ & _ & _ & Ha & _ & Hr & _).
  split; [exact Ha|exact Hr].
Defined.

(** The three creation paths of a cash entry.  An amount that is not a
    number or is [<= 0] leaves the state unchanged on the three.  An
    accepted amount is greater than zero; the add button and the
    add-to-cash modal put one entry with this amount at the head of the
    ledger, the deduct button one with its negation, which is less than
    zero; only the infinity is not stored as it is. *)
Theorem cash_entries_signed (b src note_in uid : string) (a : num) (now : Z)
  (st : State) :
  (isNaN a = true ∨ le0 a = true →
   addCash src a note_in uid now st = st
   ∧ deductCash src a note_in uid now st = st
   ∧ addToCash b src a note_in uid now st = st)
  ∧ (isNaN a = false → le0 a = false →
     gt0 a = true ∧ lt0 (neg_abs a) = true
     ∧ (PrimFloat.is_infinity a = false →
        json_number a = Some a ∧ json_number (neg_abs a) = Some (neg_abs a))
     ∧ (str_truthy src = true →
        cash (addCash src a note_in uid now st)
        = mkCash uid src (json_number a) note_in now :: cash st
        ∧ cash (deductCash src a note_in uid now st)
          = mkCash uid src (json_number (neg_abs a))
              (if str_truthy note_in then note_in else "Purchase deduction")
              now :: cash st
        ∧ (forallb isPaid
             (filter (λ i, str_or (buyer i) "Unknown" = b) (sold st)) = true →
           cash (addToCash b src a note_in uid now st)
           = mkCash uid src (json_number a) note_in now :: cash st))
     ∧ (str_truthy src = false →
        addCash src a note_in uid now st = st
        ∧ deductCash src a note_in uid now st = st
        ∧ addToCash b src a note_in uid now st = st)
     ∧ (forallb isPaid
          (filter (λ i, str_or (buyer i) "Unknown" = b) (sold st)) = false →
        addToCash b src a note_in uid now st = st)).
Proof.
  split.
  - intros H.
    assert (isNaN a || le0 a = true) as Hg
      by (destruct H as [-> | ->]; [done|by rewrite orb_true_r]).
    unfold addCash, deductCash, addToCash.
    rewrite <- orb_assoc, Hg, orb_true_r.
    split_and!; by repeat case_match.
  - intros Hn Hl.
    destruct (accepted_positive a Hn Hl) as (Hpos & _ & Hj).
    destruct (deducted_negative a Hn Hl) as (Hneg & Hjn).
    unfold addCash, deductCash, addToCash. rewrite Hn, Hl.
    split_and!; try done.
    + intros Hi. by rewrite Hj, Hjn, Hi.
    + intros ->. simpl. by split_and!; try intros ->.
    + intros ->. simpl. split_and!; try done. by destruct (forallb _ _).
    + by intros ->.
Qed.

Lemma cash_entries_signed_witness :
  addCash "GCash" 0 "n" "c1" 3 one_paid_sale = one_paid_sale
  ∧ cash (deductCash "Cash" 20 "" "c1" 3 one_paid_sale)
    = [mkCash "c1" "Cash" (Some (-20)%float) "Purchase deduction" 3].
Proof.
  split.
  - apply (proj1 (cash_entries_signed "Bea" "GCash" "n" "c1" 0%float 3
                    one_paid_sale)).
    by right.
  - apply (proj1 (proj2 (proj1 (proj2 (proj2 (proj2
      (proj2 (cash_entries_signed "Bea" "Cash" "" "c1" 20%float 3
                one_paid_sale) eq_refl eq_refl)))) eq_refl))).
Defined.



End LedgerTheorems.

(* ===================================================================== *)
(** ** The backup endpoints *)
(* ===================================================================== *)

Module BackupTheorems.
Import Backup Notions.

Lemma pick_latest_max (l : list row) :
  match pick_latest l with
  | Some r => r ∈ l ∧ ∀ r', r' ∈ l → (created_at r' ≤ created_at r)%Z
  | None => l = []
  end.
Proof.
  induction l as [|x l IH]; [done|]. simpl.
  destruct (pick_latest l) as [b|].
  - destruct IH as [Hb Hmax]. case_bool_decide as Hlt.
    + split; [left|]. intros r' Hr'.
      apply elem_of_cons in Hr' as [->|Hr']; [lia|].
      specialize (Hmax r' Hr'). lia.
    + split; [by right|]. intros r' Hr'.
      apply elem_of_cons in Hr' as [->|Hr']; [lia|]. by apply Hmax.
  - subst l. split; [left|]. intros r' Hr'.
    apply list_elem_of_singleton in Hr' as ->. lia.
Qed.

(** [latest_row] returns a row of the table of greatest [created_at], and
    nothing only when the table is empty. *)
Lemma latest_row_max (db : Db) :
  match latest_row db with
  | Some r => r ∈ rows db ∧ ∀ r', r' ∈ rows db → (created_at r' ≤ created_at r)%Z
  | None => rows db = []
  end.
Proof.
  unfold latest_row. fold (pick_latest (reverse (rows db))).
  pose proof (pick_latest_max (reverse (rows db))) as H.
  destruct (pick_latest (reverse (rows db))) as [r|].
  - destruct H as [Hr Hmax]. rewrite elem_of_reverse in Hr.
    split; [done|]. intros r' Hr'. apply Hmax. by rewrite elem_of_reverse.
  - apply (f_equal reverse) in H. by rewrite reverse_involutive in H.
Qed.

(** C9 (as stated, refuted): the two deployments do not answer alike.  To
    the same POST the API handler answers with the inserted row under
    [backup], the Netlify function with [saved: { id, created_at }]; on an
    empty table the API handler answers a GET with [success: false], the
    Netlify function with [success: true]. *)
Lemma deployments_differ :
  ¬ equivalent handler netlify_handler
  ∧ (handler manual_post one_backup).1 ≠ (netlify_handler manual_post one_backup).1
  ∧ (handler get_request (mkDb [] 1 0)).1
    = mkResponse 200
        (Json (JObj [("success", JBool false); ("backup", JNull);
                     ("error", JStr "No backups found")]))
  ∧ (netlify_handler get_request (mkDb [] 1 0)).1
    = mkResponse 200 (Json (JObj [("success", JBool true); ("backup", JNull)])).
Proof.
  split; [|split; [|split; reflexivity]].
  - intros H. specialize (H manual_post one_backup). discriminate.
  - discriminate.
Qed.

(** C9 (amended): for a POST whose body carries a truthy payload both
    handlers insert the same row (label defaulting to "manual"); the API
    handler returns [{ success: true, backup: row }], the Netlify function
    [{ success: true, saved: { id, created_at } }].  For a GET both return
    [{ success: true, backup: row }] with the most recent row when there is
    one; on an empty table the API handler returns
    [{ success: false, backup: null, error }] and the Netlify function
    [{ success: true, backup: null }].  For a method other than POST, GET
    and OPTIONS both answer with status 405 and leave the table alone. *)
Theorem backup_endpoints (req : request) (db : Db) :
  (∀ b pl,
     method req = "POST" → req_body req = Carried b →
     body_payload b = Some pl → truthy pl = true →
     let r := mkRow (next_id db) (clock db) (label_or_manual (body_label b))
                    pl in
     let db' := mkDb (r :: rows db) (next_id db + 1) (clock db + 1) in
     handler req db
     = (mkResponse 200
          (Json (JObj [("success", JBool true); ("backup", row_json r)])),
        db')
     ∧ netlify_handler req db
       = (mkResponse 200
            (Json (JObj [("success", JBool true);
                         ("saved", JObj [("id", JNum (row_id r));
                                         ("created_at",
                                          JNum (created_at r))])])),
          db'))
  ∧ (method req = "GET" →
     (∀ r, latest_row db = Some r →
           (r ∈ rows db ∧ ∀ r', r' ∈ rows db → (created_at r' ≤ created_at r)%Z)
           ∧ handler req db
             = (mkResponse 200
                  (Json (JObj [("success", JBool true);
                               ("backup", row_json r)])), db)
           ∧ netlify_handler req db = handler req db)
     ∧ (latest_row db = None →
        rows db = []
        ∧ handler req db
          = (mkResponse 200
               (Json (JObj [("success", JBool false); ("backup", JNull);
                            ("error", JStr "No backups found")])), db)
        ∧ netlify_handler req db
          = (mkResponse 200
               (Json (JObj [("success", JBool true); ("backup", JNull)])),
             db)))
  ∧ (method req ≠ "POST" → method req ≠ "GET" → method req ≠ "OPTIONS" →
     handler req db
     = (mkResponse 405
          (Json (JObj [("success", JBool false);
                       ("error", JStr "Method not allowed")])), db)
     ∧ netlify_handler req db
       = (mkResponse 405 (Text "Method not allowed"), db)).
Proof.
  split; [|split].
  - intros b pl Hm Hb Hpl Ht r db'. unfold handler, netlify_handler.
    rewrite Hm, Hb. simpl. rewrite Hpl. simpl. rewrite Ht. done.
  - intros Hm. pose proof (latest_row_max db) as Hmax.
    unfold handler, netlify_handler. rewrite Hm. simpl. split.
    + intros r Hr. rewrite Hr in *. done.
    + intros Hr. rewrite Hr in *. done.
  - intros H1 H2 H3. unfold handler, netlify_handler.
    by rewrite !bool_decide_eq_false_2 by done.
Qed.

Lemma backup_endpoints_witness :
  handler manual_post one_backup
  = (mkResponse 200
       (Json (JObj [("success", JBool true);
                    ("backup",
                     row_json (mkRow 2 11 "manual"
                                 (JObj [("localStorage", JObj [])])))])),
     mkDb [mkRow 2 11 "manual" (JObj [("localStorage", JObj [])]);
           mkRow 1 10 "manual" (JObj [])] 3 12)
  ∧ (netlify_handler manual_post one_backup).2
    = (handler manual_post one_backup).2.
Proof.
  destruct (proj1 (backup_endpoints manual_post one_backup)
              (mkBody (Some (JObj [("localStorage", JObj [])])) (Some "manual"))
              (JObj [("localStorage", JObj [])])
              eq_refl eq_refl eq_refl eq_refl) as [Hh Hn].
  rewrite Hh, Hn. split; reflexivity.
Defined.

End BackupTheorems.

(* ===================================================================== *)
(** ** More on the storage layer *)
(* ===================================================================== *)

Module StorageExtras.
Import JsFacts StorageFacts SnapshotFacts Notions Maintenance MoreNotions.

(** X1: when [localStorage] works, what [Storage.save] wrote under a key is
    what [Storage.load] returns for it (an empty list for a [null] value),
    whatever the fallback, and the values under the other keys are as
    before. *)
Theorem save_then_load (k k' : string) (v fb : json) (s : Store) :
  local_readable s = true → local_writable s = true →
  (save k v s).1 = Returned
  ∧ load k fb (save k v s).2 = Some (nullish_or (Some v) (JArr []))
  ∧ (k ≠ k' → load k' fb (save k v s).2 = load k' fb s).
Proof.
  intros Hr Hw. split; [|split].
  - rewrite save_outcome. unfold throws. by rewrite Hw.
  - unfold load, save, getItem, setItem. rewrite Hw. simpl. rewrite Hr.
    rewrite lookup_insert_eq. simpl. by destruct v.
  - intros Hne. by apply load_write_ne.
Qed.

Lemma save_then_load_witness :
  load KEYS.CASH JNull (save KEYS.CASH (JArr [JNum 5]) empty_store).2
  = Some (JArr [JNum 5]).
Proof.
  apply (save_then_load KEYS.CASH KEYS.SOLD (JArr [JNum 5]) JNull empty_store);
    reflexivity.
Defined.

(** X2: when [setItem] throws (quota) while [localStorage] still holds a
    text under the key, the value saved goes to IndexedDB only, and
    [Storage.load] keeps returning what the old text gives: the save is not
    read back. *)
Theorem save_when_full_not_read_back (k : string) (v fb : json) (s : Store)
  (old : raw) (db : gmap string json) :
  local_readable s = true → local_writable s = false →
  local s !! k = Some old → idb s = Some db → idb_writable s = true →
  (save k v s).1 = Returned
  ∧ idb (save k v s).2 = Some (<[k := nullish_or (Some v) (JArr [])]> db)
  ∧ local (save k v s).2 = local s
  ∧ load k fb (save k v s).2 = load k fb s.
Proof.
  intros Hr Hw Hold Hdb Hiw.
  unfold load, save, getItem, setItem, idbSet. rewrite Hw, Hdb, Hiw. simpl.
  rewrite Hr, Hold. done.
Qed.

Lemma save_when_full_not_read_back_witness :
  load KEYS.CASH (JArr []) (save KEYS.CASH (JArr [JNum 2]) full_with_old_cash).2
  = Some (JArr [JNum 1]).
Proof.
  rewrite (proj2 (proj2 (proj2
    (save_when_full_not_read_back KEYS.CASH (JArr [JNum 2]) (JArr [])
       full_with_old_cash (Serialized (JArr [JNum 1])) ∅
       eq_refl eq_refl eq_refl eq_refl eq_refl)))).
  reflexivity.
Defined.

(** X3: the hooked [Storage.save] either throws, and then nothing at all
    has changed (no store, no dirty flag), or returns with the data marked
    dirty; when [setItem] throws and the database does not open it returns
    although no store took the value. *)
Theorem Storage_save_failure_modes (k : string) (v : json) (w : World) :
  (throws (store w) = true → Storage_save k v w = (Threw, w))
  ∧ (throws (store w) = false →
     ∃ w', Storage_save k v w = (Returned, w') ∧ dirty w' = true
           ∧ store w' = write k v (store w))
  ∧ (local_writable (store w) = false → idb (store w) = None →
     ∃ w', Storage_save k v w = (Returned, w') ∧ store w' = store w
           ∧ dirty w' = true).
Proof.
  destruct (Storage_save_store k v w) as [Hs Ho].
  rewrite save_outcome in Ho.
  split; [|split].
  - intros Ht. rewrite Ht in Ho.
    destruct (Storage_save k v w) as [o w'] eqn:Hsave. simpl in *. subst o.
    f_equal. revert Hsave.
    unfold Storage_save, patchStorageSaveForAutoBackup, Storage_save_initial.
    pose proof (write_throws k v (store w) Ht) as Hw. unfold write in Hw.
    destruct (save k v (store w)) as [[] s']; simpl in *; [done|].
    intros [= <-]. subst s'. by destruct w.
  - intros Ht. rewrite Ht in Ho.
    destruct (Storage_save k v w) as [o w'] eqn:Hsave. simpl in *. subst o.
    exists w'. split; [done|]. split; [|done].
    by destruct (Storage_save_marks k v w w' Hsave).
  - intros Hw Hi.
    assert (throws (store w) = false) as Ht
      by (unfold throws; by rewrite Hi, andb_false_r).
    rewrite Ht in Ho.
    destruct (Storage_save k v w) as [o w'] eqn:Hsave. simpl in *. subst o.
    exists w'. split; [done|]. split.
    + rewrite Hs. unfold write, save, setItem, idbSet. by rewrite Hw, Hi.
    + by destruct (Storage_save_marks k v w w' Hsave).
Qed.

Lemma Storage_save_failure_modes_witness :
  ∃ w', Storage_save KEYS.CASH (JArr [JNum 2]) no_store_page = (Returned, w')
        ∧ store w' = store no_store_page ∧ dirty w' = true.
Proof.
  apply (proj2 (proj2
    (Storage_save_failure_modes KEYS.CASH (JArr [JNum 2]) no_store_page)));
    reflexivity.
Defined.

(** The restore does not read the [auto] mark of an automatic snapshot. *)
Lemma restoreFromDrive_fields_auto (d : gmap string json) (x : json)
  (w : World) :
  restoreFromDrive_fields (<["auto" := x]> d) w = restoreFromDrive_fields d w.
Proof.
  unfold restoreFromDrive_fields, restore_field.
  by rewrite !lookup_insert_ne by done.
Qed.

(** X4: restoring the snapshot just built, manual or automatic, changes no
    result of [Storage.load], for any key. *)
Theorem restore_own_snapshot_keeps_loads (w : World) (t k : string)
  (p : gmap string json) :
  backupToDrive_payload t w = Some p ∨ AutoBackup.buildPayload t w = Some p →
  load_default k (store (restoreFromDrive_fields p w).2)
  = load_default k (store w).
Proof.
  intros [Hp|Hp].
  - destruct (restoreFromDrive_fields_store t w w p Hp) as [Hk ->].
    by apply load_put_all.
  - unfold AutoBackup.buildPayload in Hp.
    destruct (backupToDrive_payload t w) as [q|] eqn:Hq; [|done].
    simpl in Hp. injection Hp as <-.
    rewrite restoreFromDrive_fields_auto.
    destruct (restoreFromDrive_fields_store t w w q Hq) as [Hk ->].
    by apply load_put_all.
Qed.

Lemma restore_own_snapshot_keeps_loads_witness :
  ∃ p, AutoBackup.buildPayload "t" full_page = Some p
       ∧ load_default KEYS.SOLD (store (restoreFromDrive_fields p full_page).2)
         = Some (JArr [JNum 3]).
Proof.
  eexists. split; [reflexivity|].
  rewrite (restore_own_snapshot_keeps_loads full_page "t" KEYS.SOLD _
             (or_intror eq_refl)).
  reflexivity.
Defined.

End StorageExtras.

Module RestoreExtras.
Import JsFacts StorageFacts SnapshotFacts Notions Maintenance MoreNotions.

Lemma write_spares (k key : string) (v : json) :
  k ≠ key → spares k (write key v).
Proof.
  intros Hne s. unfold write, save, setItem, idbSet, idb_at.
  destruct s as [l lr [] [db|] it ir []]; simpl; try done.
  all: by rewrite lookup_insert_ne.
Qed.

Lemma field_put_spares (data : gmap string json) (k f key : string) :
  k ≠ key → spares k (field_put data f key).
Proof.
  intros Hne s. unfold field_put, put.
  destruct (data !! f) as [v|]; [|done].
  destruct (truthy v); [by apply write_spares|done].
Qed.

(** X5: whatever object is restored, the restore writes under the seven
    collection keys only: any other key (the greeting and sort preferences,
    the last seller and buyer) keeps its content in both stores. *)
Theorem restore_spares_other_keys (data : gmap string json) (w : World)
  (k : string) :
  k ∉ restored_keys →
  local (store (restoreFromDrive_fields data w).2) !! k = local (store w) !! k
  ∧ idb_at k (store (restoreFromDrive_fields data w).2) = idb_at k (store w).
Proof.
  intros Hk. rewrite restoreFromDrive_fields_restored.
  unfold restored_keys in Hk. rewrite !not_elem_of_cons in Hk.
  destruct Hk as (H1 & H2 & H3 & H4 & H5 & H6 & H7 & _).
  unfold restored.
  repeat match goal with
  | |- context [field_put data ?f ?key ?s] =>
      destruct (field_put_spares data k f key ltac:(done) s) as [-> ->]
  end.
  done.
Qed.

Lemma restore_spares_other_keys_witness :
  local (store (restoreFromDrive_fields
                  {[ "bought" := JArr []; "sellers" := JArr [JStr "Bea"] ]}
                  page_with_pointer).2) !! "twicks_last_seller"
  = Some (Unparsable "Ana").
Proof.
  rewrite (proj1 (restore_spares_other_keys
    {[ "bought" := JArr []; "sellers" := JArr [JStr "Bea"] ]}
    page_with_pointer "twicks_last_seller"
    ltac:(unfold restored_keys; rewrite !not_elem_of_cons;
          repeat split; try discriminate; apply not_elem_of_nil))).
  reflexivity.
Defined.

End RestoreExtras.

Module MaintenanceExtras.
Import JsFacts StorageFacts SnapshotFacts Notions Maintenance MoreNotions.

(** X6: when [localStorage] can be read and the reset returns, none of the
    three collections of cards loads as anything but the empty list
    afterwards.  Each loads as the empty list when [setItem] works, and also
    when it throws and the empty lists go to IndexedDB or nowhere; the load
    rejects only when [setItem] throws and the opened database cannot start
    a transaction.  Every other key, the cash ledger and the registries
    among them, loads as before. *)
Theorem resetAll_empties_cards (w w' : World) (k : string) :
  local_readable (store w) = true →
  resetAll true w = (Returned, w') →
  (k ∈ [KEYS.BOUGHT; KEYS.FORSALE; KEYS.SOLD] →
     (local_writable (store w) = true ∨ idb (store w) = None
      ∨ idb_transacts (store w) = true →
      load_default k (store w') = Some (JArr []))
     ∧ (local_writable (store w) = false → is_Some (idb (store w)) →
        idb_transacts (store w) = false →
        load_default k (store w') = None))
  ∧ (k ∉ [KEYS.BOUGHT; KEYS.FORSALE; KEYS.SOLD] →
     load_default k (store w') = load_default k (store w)).
Proof.
  intros Hr. rewrite !not_elem_of_cons, !elem_of_cons, elem_of_nil.
  destruct w as [[l lr lw db it ir iw] d n]. simpl in Hr. subst lr.
  unfold resetAll, and_then, localDel_page, Storage_save,
    patchStorageSaveForAutoBackup, Storage_save_initial, save, setItem,
    idbSet, localDel, load_default, load, getItem, idbGet, markDirty.
  destruct lw, db as [db|], it, ir, iw; simpl; intros [= <-]; simpl.
  all: split; [intros [->|[->|[->|[]]]]; split|intros (H1 & H2 & H3 & _)].
  all: try (intros [?|[?|?]]); try (intros ? [? ?] ?).
  all: simplify_map_eq; done.
Qed.

Lemma resetAll_empties_cards_witness :
  load_default KEYS.BOUGHT (store (resetAll true full_page).2)
  = Some (JArr [])
  ∧ load_default KEYS.CASH (store (resetAll true full_page).2)
    = Some (JArr [JNum 7]).
Proof.
  split.
  - apply (proj1 (resetAll_empties_cards full_page (resetAll true full_page).2
                    KEYS.BOUGHT eq_refl eq_refl)).
    + left.
    + right. by right.
  - rewrite (proj2 (resetAll_empties_cards full_page
                      (resetAll true full_page).2 KEYS.CASH eq_refl eq_refl));
      [reflexivity|].
    rewrite !not_elem_of_cons. repeat split; try discriminate.
    apply not_elem_of_nil.
Defined.

Lemma restoreFromCloud_entries_flags (entries : list (string * raw))
  (s : Store) :
  idb (restoreFromCloud_entries entries s) = idb s
  ∧ local_writable (restoreFromCloud_entries entries s) = local_writable s.
Proof.
  revert s. induction entries as [|[k v] rest IH]; intros s; simpl; [done|].
  unfold setItem. destruct (local_writable s) eqn:Hw; [|done].
  destruct (IH (set_local (<[k:=v]> (local s)) s)) as [-> ->]. done.
Qed.

Lemma restoreFromCloud_entries_other (entries : list (string * raw))
  (s : Store) (k : string) :
  k ∉ entries.*1 →
  local (restoreFromCloud_entries entries s) !! k = local s !! k.
Proof.
  revert s. induction entries as [|[k' v] rest IH]; intros s Hk; simpl;
    [done|].
  rewrite fmap_cons, not_elem_of_cons in Hk. destruct Hk as [Hne Hk].
  unfold setItem. destruct (local_writable s); [|done].
  rewrite IH by done. simpl. by rewrite lookup_insert_ne.
Qed.

Lemma restoreFromCloud_entries_written (entries : list (string * raw))
  (s : Store) (k : string) (v : raw) :
  local_writable s = true → NoDup entries.*1 → (k, v) ∈ entries →
  local (restoreFromCloud_entries entries s) !! k = Some v.
Proof.
  revert s. induction entries as [|[k' v'] rest IH]; intros s Hw Hnd Hin;
    [by apply elem_of_nil in Hin|].
  rewrite fmap_cons in Hnd. apply NoDup_cons in Hnd as [Hk' Hnd].
  simpl. unfold setItem. rewrite Hw.
  apply elem_of_cons in Hin as [[= -> ->]|Hin].
  - rewrite restoreFromCloud_entries_other by done. simpl.
    apply lookup_insert_eq.
  - by apply IH.
Qed.

(** Writing entries a store already holds changes nothing. *)
Lemma restoreFromCloud_entries_same (entries : list (string * raw))
  (s : Store) :
  (∀ k v, (k, v) ∈ entries → local s !! k = Some v) →
  restoreFromCloud_entries entries s = s.
Proof.
  induction entries as [|[k v] rest IH]; intros Hall; simpl; [done|].
  unfold setItem. destruct (local_writable s); [|done].
  assert (set_local (<[k:=v]> (local s)) s = s) as ->.
  { rewrite insert_id by (apply Hall; left). by destruct s. }
  apply IH. intros k' v' Hin. apply Hall. by right.
Qed.

(** X7: the cloud restore writes every entry of the backup into
    [localStorage] when it is writable (keys being distinct), never touches
    IndexedDB, and removes nothing: a key the backup does not list keeps its
    text.  Restoring the backup just taken of the same [localStorage] changes
    nothing. *)
Theorem restoreFromCloud_overlay (entries : list (string * raw)) (s : Store) :
  idb (restoreFromCloud_entries entries s) = idb s
  ∧ (∀ k, k ∉ entries.*1 →
          local (restoreFromCloud_entries entries s) !! k = local s !! k)
  ∧ (local_writable s = true → NoDup entries.*1 →
     ∀ k v, (k, v) ∈ entries →
            local (restoreFromCloud_entries entries s) !! k = Some v)
  ∧ restoreFromCloud_entries (backupToCloud_entries s) s = s.
Proof.
  split_and!.
  - apply restoreFromCloud_entries_flags.
  - intros k. apply restoreFromCloud_entries_other.
  - intros Hw Hnd k v. by apply restoreFromCloud_entries_written.
  - apply restoreFromCloud_entries_same. intros k v Hin.
    by apply elem_of_map_to_list.
Qed.

Lemma restoreFromCloud_overlay_witness :
  local (restoreFromCloud_entries
           [(KEYS.CASH, Serialized (JArr [])); ("twicks_greet_pref",
             Unparsable "morning")] empty_store) !! KEYS.CASH
  = Some (Serialized (JArr [])).
Proof.
  apply (proj1 (proj2 (proj2 (restoreFromCloud_overlay
    [(KEYS.CASH, Serialized (JArr [])); ("twicks_greet_pref",
      Unparsable "morning")] empty_store)))).
  - reflexivity.
  - simpl. apply NoDup_cons. split; [|apply NoDup_singleton].
    rewrite list_elem_of_singleton. discriminate.
  - left.
Defined.

End MaintenanceExtras.

Module AutoBackupExtras.
Import JsFacts StorageFacts SnapshotFacts Notions AutoBackup MoreNotions.

(** X8: [performBackup] never writes to the stores and leaves [running] as
    it found it.  When a backup is already running, nothing is dirty, or the
    snapshot cannot be built (a load rejects), it changes nothing else
    either.  Otherwise: signed out, nothing is uploaded and yet the dirty
    flag is cleared; signed in with working requests, the rolling file
    becomes the snapshot and the flag is cleared; signed in with a failing
    request, the file and the flag stay as they are, so the next trigger
    tries again. *)
Theorem performBackup_outcome (t : string) (same : bool) (a : Auto) :
  let a' := performBackup t same a in
  store (page a') = store (page a)
  ∧ markDirty_calls (page a') = markDirty_calls (page a)
  ∧ running a' = running a
  ∧ (running a = true ∨ dirty (page a) = false
     ∨ buildPayload t (page a) = None →
     page a' = page a ∧ drive a' = drive a
     ∧ lastSerialized a' = lastSerialized a)
  ∧ (running a = false → dirty (page a) = true →
     ∀ p, buildPayload t (page a) = Some p →
     (signedIn (drive a) = false →
      drive a' = drive a ∧ dirty (page a') = false)
     ∧ (signedIn (drive a) = true → requests_ok (drive a) = true →
        rolling (drive a') = Some p ∧ dirty (page a') = false)
     ∧ (signedIn (drive a) = true → requests_ok (drive a) = false →
        drive a' = drive a ∧ dirty (page a') = true
        ∧ lastSerialized a' = lastSerialized a)).
Proof.
  unfold performBackup, driveUpsertJsonRolling, clear_dirty.
  destruct a as [[s d n] r l [si ok f]]. simpl.
  destruct (buildPayload t {| store := s; dirty := d; markDirty_calls := n |})
    as [q|].
  all: destruct r, d, si, ok; simpl; split_and!; try done.
  all: try (intros [?|[?|?]]; done).
  all: try (intros _ _ p [= <-]; split_and!; done).
Qed.

Lemma performBackup_outcome_witness :
  drive (performBackup "t" false signed_out_dirty) = drive signed_out_dirty
  ∧ dirty (page (performBackup "t" false signed_out_dirty)) = false.
Proof.
  apply (proj1 (proj2 (proj2 (proj2 (proj2
    (performBackup_outcome "t" false signed_out_dirty)))) eq_refl eq_refl
    _ eq_refl)); reflexivity.
Defined.

(** [Storage.load] resolves when the database is closed or can start a
    transaction. *)
Lemma load_resolves (k : string) (fb : json) (s : Store) :
  idb s = None ∨ idb_transacts s = true → is_Some (load k fb s).
Proof.
  intros H. destruct (load k fb s) as [v|] eqn:Hl; [by eexists|].
  apply load_rejects in Hl as (_ & [db Hdb] & Ht).
  destruct H as [H|H]; congruence.
Qed.

Lemma buildPayload_field (t f k : string) (w : World) :
  (f, k) ∈ snapshot_fields →
  (∀ j, is_Some (load_default j (store w))) →
  ∃ p, buildPayload t w = Some p ∧ p !! f = load_default k (store w).
Proof.
  intros H Hall. unfold buildPayload, backupToDrive_payload.
  destruct (Hall KEYS.BOUGHT) as [v1 H1].
  destruct (Hall KEYS.FORSALE) as [v2 H2].
  destruct (Hall KEYS.SOLD) as [v3 H3].
  destruct (Hall KEYS.CASH) as [v4 H4].
  destruct (Hall KEYS.SELLERS) as [v5 H5].
  destruct (Hall KEYS.SHIP_OUT_MAP) as [v6 H6].
  destruct (Hall KEYS.BUYERS) as [v7 H7].
  rewrite H1, H2, H3, H4, H5, H6, H7. simpl. eexists. split; [reflexivity|].
  unfold snapshot_fields in H.
  repeat (apply elem_of_cons in H as [[= -> ->]|H];
          [by rewrite ?H1, ?H2, ?H3, ?H4, ?H5, ?H6, ?H7|]).
  by apply elem_of_nil in H.
Qed.

Lemma load_after_save (k : string) (v : json) (s : Store) :
  local_readable s = true → local_writable s = true →
  load_default k (save k v s).2 = Some (nullish_or (Some v) (JArr [])).
Proof.
  intros Hr Hw. unfold load_default, load, save, getItem, setItem.
  rewrite Hw. simpl. rewrite Hr, lookup_insert_eq. simpl. by destruct v.
Qed.

Lemma write_conditions (k : string) (v : json) (s : Store) :
  (idb s = None → idb (write k v s) = None)
  ∧ idb_transacts (write k v s) = idb_transacts s.
Proof.
  unfold write, save, setItem, idbSet.
  destruct s as [l lr [] [db|] it ir []]; simpl; done.
Qed.

(** X9: with [localStorage] working, the database closed or able to start
    a transaction, and Drive signed in and reachable, a value saved under a
    collection key is, after the next trigger, the content of the matching
    field of the rolling file; the data is then clean, and a further trigger
    does nothing. *)
Theorem save_then_backup (f k t t' : string) (v : json) (same same' : bool)
  (a : Auto) :
  (f, k) ∈ snapshot_fields →
  running a = false →
  signedIn (drive a) = true → requests_ok (drive a) = true →
  local_readable (store (page a)) = true →
  local_writable (store (page a)) = true →
  idb (store (page a)) = None ∨ idb_transacts (store (page a)) = true →
  ∃ a1, page_save k v a = (Returned, a1)
        ∧ rolling (drive (trigger t same a1)) ≫= (λ file, file !! f)
          = Some (nullish_or (Some v) (JArr []))
        ∧ dirty (page (trigger t same a1)) = false
        ∧ trigger t' same' (trigger t same a1) = trigger t same a1.
Proof.
  intros Hf Hrun Hsi Hok Hr Hw Hidb.
  destruct (Storage_save_store k v (page a)) as [Hs Ho].
  rewrite save_outcome in Ho.
  assert (throws (store (page a)) = false) as Ht
    by (unfold throws; by rewrite Hw).
  rewrite Ht in Ho.
  unfold page_save.
  destruct (Storage_save k v (page a)) as [o w1] eqn:Hsave.
  simpl in Hs, Ho. subst o.
  destruct (Storage_save_marks k v (page a) w1 Hsave) as [_ Hd].
  eexists. split; [reflexivity|].
  destruct (buildPayload_field t f k w1 Hf) as (p & Hp & Hpf).
  { intros j. apply load_resolves. rewrite Hs.
    destruct (write_conditions k v (store (page a))) as [Hn ->].
    destruct Hidb as [?|?]; [left; by apply Hn|by right]. }
  unfold trigger, performBackup, driveUpsertJsonRolling. simpl.
  rewrite Hd, Hrun, Hp, Hsi, Hok. simpl. split_and!; [|done..].
  rewrite Hpf, Hs. by apply load_after_save.
Qed.

Lemma save_then_backup_witness :
  ∃ a1, page_save KEYS.CASH (JArr [JNum 5]) signed_in_clean = (Returned, a1)
        ∧ rolling (drive (trigger "t" false a1)) ≫= (λ file, file !! "cash")
          = Some (JArr [JNum 5])
        ∧ dirty (page (trigger "t" false a1)) = false
        ∧ trigger "u" true (trigger "t" false a1) = trigger "t" false a1.
Proof.
  apply (save_then_backup "cash" KEYS.CASH "t" "u" (JArr [JNum 5]) false true
           signed_in_clean); try reflexivity.
  - unfold snapshot_fields. do 3 right. left.
  - by right.
Defined.

End AutoBackupExtras.

(* ===================================================================== *)
(** ** More on the ledger handlers *)
(* ===================================================================== *)

Module LedgerExtras.
Import JsFacts Ledger LedgerFacts Notions LedgerMore MoreNotions.
Import LedgerTheorems MoreNotions.

(** X10: an inventory item that is listed, marked sold and marked paid
    (the listing carrying the identifier just generated) is gone from the
    inventory at its index, the listings and the cash ledger are as before,
    and the sold list has gained one record at its head: paid, with the
    generated identifier, the buyer of the sale, the item's buy + ship-in
    as cost and the listing price. *)
Theorem list_sell_pay (i uid sel : string) (nb answer : option string)
  (t1 t2 : Z) (st : State) (idx : nat) (it : item) :
  findIndex i (bought st) = Some (idx, it) →
  let st3 :=
    markPaid uid
      (markSold uid sel nb answer t2 (listForSale i uid t1 st)) in
  bought st3 = delete idx (bought st)
  ∧ forsale st3 = forsale st
  ∧ cash st3 = cash st
  ∧ ∃ r, sold st3 = r :: sold st
         ∧ id r = uid ∧ status r = Some "Paid" ∧ isPaid r = true
         ∧ buyer r
           = Some (sale_buyer sel nb answer (listForSale i uid t1 st))
         ∧ buy r = json_number (add (num_or0 (buy it)) (num_or0 (ship it)))
         ∧ price r = json_number (priceDefault it).
Proof.
  intros Hf st3. subst st3.
  set (st1 := listForSale i uid t1 st).
  assert (bought st1 = delete idx (bought st)
          ∧ forsale st1 = listing_of it uid t1 :: forsale st
          ∧ sold st1 = sold st ∧ cash st1 = cash st) as (Hb1 & Hf1 & Hs1 & Hc1).
  { subst st1. unfold listForSale. by rewrite Hf. }
  assert (findIndex uid (forsale st1) = Some (0%nat, listing_of it uid t1))
    as Hfind1.
  { rewrite Hf1. apply (findIndex_head (listing_of it uid t1)). }
  destruct (markSold_found uid sel nb answer t2 st1 _ _ Hfind1)
    as (Hf2 & Hs2 & Hb2 & Hc2).
  set (st2 := markSold uid sel nb answer t2 st1) in *.
  set (r := set_status "Pending"
              (set_soldAt t2
                 (set_buyer (sale_buyer sel nb answer st1)
                    (listing_of it uid t1)))) in *.
  assert (findIndex uid (sold st2) = Some (0%nat, r)) as Hfind2.
  { rewrite Hs2. apply (findIndex_head r). }
  unfold markPaid. rewrite Hfind2. simpl.
  rewrite Hb2, Hb1, Hf2, Hf1, Hc2, Hc1, Hs2, Hs1. split_and!; try done.
  eexists. split; [reflexivity|]. by split_and!.
Qed.

Lemma list_sell_pay_witness :
  ∃ r, sold (markPaid "u2"
               (markSold "u2" "Bea" None None 3
                  (listForSale "u1" "u2" 2 entered_100_10))) = [r]
       ∧ status r = Some "Paid" ∧ buyer r = Some "Bea"
       ∧ buy r = Some 110%float ∧ price r = Some 100%float.
Proof.
  destruct (list_sell_pay "u1" "u2" "Bea" None None 2 3 entered_100_10 0
              entered_item eq_refl)
    as (_ & _ & _ & r & Hs & _ & Hp & _ & Hby & Hb & Hpr).
  exists r. split; [exact Hs|]. split; [exact Hp|].
  split; [exact Hby|]. split; [exact Hb|exact Hpr].
Defined.

Lemma pending_of_true (b : string) (i : item) :
  pending_of b i = true ↔ isPaid i = false ∧ buyer_bucket i = b.
Proof.
  unfold pending_of, buyer_bucket.
  rewrite andb_true_iff, bool_decide_eq_true, negb_true_iff. tauto.
Qed.

Lemma filter_none {A} (P : A → Prop) `{∀ x, Decision (P x)} (l : list A) :
  (∀ x, x ∈ l → ¬ P x) → filter P l = [].
Proof.
  induction l as [|x l IH]; intros Hl; [done|].
  rewrite filter_cons. rewrite decide_False by (apply Hl; left).
  apply IH. intros y Hy. apply Hl. by right.
Qed.

Lemma no_pending_left (b : string) (l : list item) :
  length (filter (λ it, pending_of b it = true) l) = 0%nat →
  ∀ i, i ∈ l → pending_of b i = false.
Proof.
  intros Hlen i Hi. destruct (pending_of b i) eqn:Hp; [|done].
  apply length_zero_iff_nil in Hlen.
  assert (i ∈ filter (λ it, pending_of b it = true) l) as Hin
    by by apply list_elem_of_filter.
  rewrite Hlen in Hin. by apply elem_of_nil in Hin.
Qed.

Lemma pending_of_false (b : string) (i : item) :
  pending_of b i = false → buyer_bucket i = b → isPaid i = true.
Proof.
  unfold pending_of, buyer_bucket. intros Hp Hb.
  rewrite bool_decide_eq_true_2 in Hp by done. simpl in Hp.
  by destruct (isPaid i).
Qed.

Lemma isPaid_set_Paid (i : item) : isPaid (set_status "Paid" i) = true.
Proof. done. Qed.

(** After the mark-all loop every record of the buyer is paid. *)
Lemma markAllPaid_all_paid (b : string) (st : State) (i : item) :
  i ∈ sold (markAllPaid b st) → buyer_bucket i = b → isPaid i = true.
Proof.
  unfold markAllPaid. case_bool_decide as Hz.
  - intros Hi Hb. apply (pending_of_false b); [|done].
    by apply (no_pending_left b (sold st)).
  - simpl. intros Hi Hb. apply list_elem_of_fmap in Hi as (x & -> & Hx).
    destruct (pending_of b x) eqn:Hp; [done|].
    by apply (pending_of_false b).
Qed.

Lemma allPaid_forallb (l : list item) : allPaid l = forallb isPaid l.
Proof.
  unfold allPaid, hasPending. induction l as [|x l IH]; [done|].
  simpl. rewrite <- IH. by destruct (isPaid x), (existsb _ l).
Qed.

Lemma forallb_isPaid (l : list item) :
  (∀ i, i ∈ l → isPaid i = true) → forallb isPaid l = true.
Proof.
  induction l as [|x l IH]; intros H; [done|]. simpl.
  rewrite (H x) by left. simpl. apply IH. intros i Hi. apply H. by right.
Qed.

(** X11: after "Mark all as paid" for a buyer, every sold record of the
    buyer is paid, so the row of the buyer, when the page renders, shows as
    fully paid, and the guard of "Add to Cash" passes; the sold list keeps
    its length, a record that was paid or belongs to another buyer is
    unchanged, and the others only changed status.  Marking again changes
    nothing. *)
Theorem markAllPaid_settles (b : string) (st : State) :
  let st' := markAllPaid b st in
  (∀ l, byBuyer b (sold st') = Some l → allPaid l = true)
  ∧ forallb isPaid (filter (λ i, str_or (buyer i) "Unknown" = b) (sold st'))
    = true
  ∧ length (sold st') = length (sold st)
  ∧ (∀ k i, sold st !! k = Some i →
       ∃ i', sold st' !! k = Some i'
             ∧ (isPaid i = true ∨ buyer_bucket i ≠ b → i' = i)
             ∧ (isPaid i = false → buyer_bucket i = b →
                i' = set_status "Paid" i))
  ∧ markAllPaid b st' = st'.
Proof.
  intros st'.
  assert (forallb isPaid (filter (λ i, buyer_bucket i = b) (sold st')) = true)
    as Hall.
  { apply forallb_isPaid. intros i Hi.
    apply list_elem_of_filter in Hi as [Hb Hi].
    by apply (markAllPaid_all_paid b st). }
  split_and!.
  - intros l. unfold byBuyer. case_bool_decide; [done|].
    intros [= <-]. by rewrite allPaid_forallb.
  - exact Hall.
  - subst st'. unfold markAllPaid. case_bool_decide; [done|].
    simpl. apply length_fmap.
  - intros k i Hk. subst st'. unfold markAllPaid.
    case_bool_decide as Hz.
    + exists i. split; [done|]. split; [done|]. intros Hp Hb.
      assert (pending_of b i = false) as Hnp.
      { eapply no_pending_left; [done|]. by eapply list_elem_of_lookup_2. }
      assert (pending_of b i = true) by (by apply pending_of_true).
      congruence.
    + simpl. rewrite list_lookup_fmap, Hk. simpl. eexists. split; [done|].
      destruct (pending_of b i) eqn:Hp.
      * apply pending_of_true in Hp as [Hp Hb]. split; [|done].
        intros [?|?]; congruence.
      * split; [done|]. intros Hp' Hb.
        assert (pending_of b i = true) by (by apply pending_of_true).
        congruence.
  - unfold markAllPaid at 1.
    rewrite bool_decide_eq_true_2; [done|].
    rewrite filter_none; [done|].
    intros i Hi Hp. apply pending_of_true in Hp as [Hp Hb].
    rewrite (markAllPaid_all_paid b st i Hi Hb) in Hp. discriminate.
Qed.

Lemma elem_of_delete_other {A} (l : list A) (idx : nat) (x y : A) :
  l !! idx = Some y → x ∈ l → x ≠ y → x ∈ delete idx l.
Proof.
  revert idx. induction l as [|a l IH]; intros idx Hl Hx Hne;
    [by apply elem_of_nil in Hx|].
  destruct idx as [|k]; simpl in *.
  - injection Hl as ->. apply elem_of_cons in Hx as [->|Hx]; done.
  - apply elem_of_cons in Hx as [->|Hx]; [left|right]. by eapply IH.
Qed.

Lemma elem_of_insert_or {A} (l : list A) (idx : nat) (x y z : A) :
  l !! idx = Some y → x ∈ l → x ∈ <[idx := z]> l ∨ x = y.
Proof.
  revert idx. induction l as [|a l IH]; intros idx Hl Hx;
    [by apply elem_of_nil in Hx|].
  destruct idx as [|k]; simpl in *.
  - injection Hl as ->. apply elem_of_cons in Hx as [->|Hx]; [by right|].
    left. by right.
  - apply elem_of_cons in Hx as [->|Hx]; [left; left|].
    destruct (IH k Hl Hx) as [?|?]; [left; by right|by right].
Qed.

Lemma paid_in_same (r : item) (l : list item) :
  r ∈ l → isPaid r = true → paid_in (id r) l.
Proof. intros. by exists r. Qed.

Lemma paid_in_retag_buyer (nm target : string) (r : item) (l : list item) :
  r ∈ l → isPaid r = true → paid_in (id r) (retag_buyer nm target l).
Proof.
  intros Hr Hp. unfold retag_buyer.
  eexists. split; [by apply list_elem_of_fmap_2|].
  simpl. by case_bool_decide.
Qed.

(** A handler of the registries or of the pointers leaves the sold list and
    the cash ledger as they are. *)
Lemma modal_handlers_frame (nm : string) (answer : option string) (c : bool)
  (st : State) :
  sold (renameSeller nm answer (showManageSellersModal st) st).2 = sold st
  ∧ cash (renameSeller nm answer (showManageSellersModal st) st).2 = cash st
  ∧ sold (deleteSeller nm c answer (showManageSellersModal st) st).2 = sold st
  ∧ cash (deleteSeller nm c answer (showManageSellersModal st) st).2 = cash st
  ∧ sold (deleteBuyer nm c (showManageBuyersModal st) st).2 = sold st
  ∧ cash (deleteBuyer nm c (showManageBuyersModal st) st).2 = cash st
  ∧ cash (renameBuyer nm answer (showManageBuyersModal st) st).2 = cash st.
Proof.
  unfold renameSeller, deleteSeller, deleteBuyer, renameBuyer.
  split_and!; repeat case_match; done.
Qed.

(** X12: no handler turns a paid record back to pending.  Whatever the
    action, a paid record of the sold list is still there afterwards, with
    its identifier and paid, unless the action is the confirmed deletion of
    that very identifier, the confirmed reset of the collections, which
    empties the list, or the restore of a backup that carries a sold list,
    which puts that list in its place. *)
Theorem paid_stays_paid (a : action) (st : State) (r : item) :
  r ∈ sold st → isPaid r = true →
  a = DeleteSold (id r) true
  ∨ (replaces_sold a
     ∧ sold (run a st)
       = match a with
         | RestoreFromDrive data | RestoreFromCloud data _ _ =>
             default [] (b_sold data)
         | _ => []
         end)
  ∨ paid_in (id r) (sold (run a st)).
Proof.
  intros Hr Hp.
  assert (paid_in (id r) (sold st)) as Hsame by by apply (paid_in_same r).
  destruct a; simpl.
  - right. right. unfold sellerSelect_change. case_match; [|done].
    by destruct (chooseSellerFlow_cards sel_value answer st)
      as (_ & _ & -> & _).
  - right. right.
    by destruct (addBought_stores sel_value answer buy_in ship_in_ sell_in
                   has_file card_name imageUrl uid now st) as (_ & -> & _).
  - right. right. unfold listForSale. by repeat case_match.
  - right. right. unfold deleteBought. by repeat case_match.
  - right. right. unfold listSeller. by case_match.
  - destruct confirmed; [right; left; by split|by right; right].
  - right. right.
    by destruct (modal_handlers_frame nm answer true st) as (-> & _).
  - right. right.
    by destruct (modal_handlers_frame nm reassignTo confirmed st)
      as (_ & _ & -> & _).
  - right. right.
    by destruct (chooseBuyerFlow_cards sel_value answer st) as (_ & _ & -> & _).
  - right. right. unfold addForSale. by repeat case_match.
  - by right; right.
  - right. right. destruct (findIndex i (forsale st)) as [[idx it]|] eqn:Hf.
    + destruct (markSold_found i sel_value new_buyer answer now st idx it Hf)
        as (_ & -> & _). apply (paid_in_same r); [by right|done].
    + by destruct (markSold_missing i sel_value new_buyer answer now st Hf)
        as (_ & -> & _).
  - right. right. unfold renameBuyer.
    repeat case_match; simpl; try done.
    all: by apply paid_in_retag_buyer.
  - right. right.
    by destruct (modal_handlers_frame nm None confirmed st)
      as (_ & _ & _ & _ & -> & _).
  - right. right. unfold markPaid.
    destruct (findIndex i (sold st)) as [[idx it]|] eqn:Hf; [|done].
    simpl. apply findIndex_Some in Hf as [Hl Hid].
    destruct (elem_of_insert_or (sold st) idx r it (set_status "Paid" it)
                Hl Hr) as [Hin| ->].
    + by apply (paid_in_same r).
    + exists (set_status "Paid" it). split; [|done].
      apply list_elem_of_lookup. exists idx.
      apply list_lookup_insert_eq. by eapply lookup_lt_Some.
  - right. right. unfold markAllPaid. case_bool_decide; [done|].
    simpl. exists r. split; [|done].
    apply list_elem_of_fmap. exists r. split; [|done].
    unfold pending_of. rewrite Hp. by rewrite andb_false_r.
  - right. right. unfold setShippingFee. by repeat case_match.
  - right. right. unfold addToCash. by repeat case_match.
  - destruct (decide (i = id r)) as [->|Hne].
    + destruct confirmed; [by left|]. by right; right.
    + right. right. unfold deleteSold. destruct confirmed; [|done].
      destruct (findIndex i (sold st)) as [[idx it]|] eqn:Hf; [|done].
      simpl. apply findIndex_Some in Hf as [Hl Hid].
      apply (paid_in_same r); [|done].
      apply (elem_of_delete_other _ idx r it); [done..|]. congruence.
  - right. right. unfold addCash. by repeat case_match.
  - right. right. unfold deductCash. by repeat case_match.
  - right. right. unfold deleteCash. by repeat case_match.
  - destruct (b_sold data) as [l|] eqn:Hl; simpl.
    + right. left. by split.
    + by right; right.
  - unfold restoreFromCloud_collections.
    assert (sold (match last_buyer with
                  | Some p => set_buyer_last (Some p)
                      (match last_seller with
                       | Some p => set_seller_last (Some p)
                           (restoreFromDrive_collections data st)
                       | None => restoreFromDrive_collections data st
                       end)
                  | None => match last_seller with
                       | Some p => set_seller_last (Some p)
                           (restoreFromDrive_collections data st)
                       | None => restoreFromDrive_collections data st
                       end
                  end) = default (sold st) (b_sold data)) as ->
      by by destruct last_buyer, last_seller.
    destruct (b_sold data) as [l|] eqn:Hl; simpl.
    + right. left. by split.
    + by right; right.
Qed.

Lemma paid_stays_paid_witness :
  paid_in "s1" (sold (run (RenameBuyer "Bea" (Some "Cyd")) one_paid_sale)).
Proof.
  destruct (paid_stays_paid (RenameBuyer "Bea" (Some "Cyd")) one_paid_sale
              (mkItem "s1" (Some "Ana") (Some "Card") (Some 110%float) None
                 None (Some 150%float) (Some 10%float) (Some "img") (Some 1)
                 (Some "Bea") (Some 2) (Some "Paid"))
              ltac:(left) eq_refl) as [Hd|[[[] _]|Hin]].
  - discriminate Hd.
  - exact Hin.
Defined.

Lemma length_filter_split {A} (P : A → Prop) `{∀ x, Decision (P x)}
  (l : list A) :
  (length (filter P l) + length (filter (λ i, ¬ P i) l))%nat = length l.
Proof.
  induction l as [|x l IH]; [done|].
  rewrite !filter_cons. destruct (decide (P x)).
  - rewrite decide_False by tauto. simpl. lia.
  - rewrite decide_True by done. simpl. lia.
Qed.

(** X13: every sold record counts in exactly one of the two revenues of
    [calcSoldRevenue].  The paid revenue is the sum, in the order of the
    list, of the prices of the records whose status is Paid, the pending
    revenue that of all the others (a record without status among them);
    the two groups share no record, hold between them every record of the
    list, and together have as many records as the list.  (The two
    revenues are sums of doubles: they need not add up to the sum over the
    whole list.) *)
Theorem revenue_partition (st : State) :
  let paidItems := filter (λ i, status i = Some "Paid") (sold st) in
  let pendingItems := filter (λ i, status i ≠ Some "Paid") (sold st) in
  calcSoldRevenue st = (sum_price paidItems, sum_price pendingItems)
  ∧ (paidItems ++ pendingItems)%list ≡ₚ sold st
  ∧ (∀ i, i ∈ paidItems → i ∉ pendingItems)
  ∧ (∀ i, i ∈ sold st → i ∈ paidItems ∨ i ∈ pendingItems)
  ∧ (∀ i, i ∈ sold st → status i = None → i ∈ pendingItems)
  ∧ (length paidItems + length pendingItems)%nat = length (sold st).
Proof.
  intros paidItems pendingItems. subst paidItems pendingItems.
  split_and!.
  - unfold calcSoldRevenue. f_equal; f_equal; apply list_filter_iff; intros i.
    + apply isPaid_true.
    + by rewrite isPaid_true.
  - apply filter_app_complement.
  - intros i Hi Hi'. apply list_elem_of_filter in Hi as [Hp _].
    by apply list_elem_of_filter in Hi' as [Hn _].
  - intros i Hi. rewrite !list_elem_of_filter.
    destruct (decide (status i = Some "Paid")); [left|right]; done.
  - intros i Hi Hs. apply list_elem_of_filter. split; [|done].
    by rewrite Hs.
  - apply length_filter_split.
Qed.

(** X14: a cash entry is never modified once created.  Whatever the action,
    the cash ledger afterwards is the ledger before, or the ledger before
    with one entry put at its head, or the ledger before with one entry
    deleted, unless the action restores a backup that carries a cash
    ledger, which puts that ledger in its place. *)
Theorem cash_entries_immutable (a : action) (st : State) :
  cash (run a st) = cash st
  ∨ (∃ e, cash (run a st) = e :: cash st)
  ∨ (∃ idx e, cash st !! idx = Some e
              ∧ cash (run a st) = delete idx (cash st))
  ∨ (∃ data l, (a = RestoreFromDrive data
                ∨ ∃ ls lb, a = RestoreFromCloud data ls lb)
               ∧ b_cash data = Some l ∧ cash (run a st) = l).
Proof.
  destruct a; simpl.
  - left. unfold sellerSelect_change. case_match; [|done].
    by destruct (chooseSellerFlow_cards sel_value answer st)
      as (_ & _ & _ & -> & _).
  - left.
    by destruct (addBought_stores sel_value answer buy_in ship_in_ sell_in
                   has_file card_name imageUrl uid now st) as (_ & _ & -> & _).
  - left. unfold listForSale. by repeat case_match.
  - left. unfold deleteBought. by repeat case_match.
  - left. unfold listSeller. by case_match.
  - left. unfold resetAll_cards. by case_match.
  - left. by destruct (modal_handlers_frame nm answer true st) as (_ & -> & _).
  - left. by destruct (modal_handlers_frame nm reassignTo confirmed st)
      as (_ & _ & _ & -> & _).
  - left.
    by destruct (chooseBuyerFlow_cards sel_value answer st)
      as (_ & _ & _ & -> & _).
  - left. unfold addForSale. by repeat case_match.
  - by left.
  - left. destruct (findIndex i (forsale st)) as [[idx it]|] eqn:Hf.
    + by destruct (markSold_found i sel_value new_buyer answer now st idx it
                     Hf) as (_ & _ & _ & ->).
    + by destruct (markSold_missing i sel_value new_buyer answer now st Hf)
        as (_ & _ & _ & ->).
  - left. by destruct (modal_handlers_frame nm answer true st)
      as (_ & _ & _ & _ & _ & _ & ->).
  - left. by destruct (modal_handlers_frame nm None confirmed st)
      as (_ & _ & _ & _ & _ & -> & _).
  - left. unfold markPaid. by repeat case_match.
  - left. unfold markAllPaid. by repeat case_match.
  - left. unfold setShippingFee. by repeat case_match.
  - unfold addToCash. repeat case_match; try by left.
    all: right; left; by eexists.
  - left. unfold deleteSold. by repeat case_match.
  - unfold addCash. repeat case_match; try by left.
    all: right; left; by eexists.
  - unfold deductCash. repeat case_match; try by left.
    all: right; left; by eexists.
  - unfold deleteCash.
    destruct (list_find _ (cash st)) as [[idx e]|] eqn:Hf; [|by left].
    right. right. left. exists idx, e. split; [|done].
    by apply list_find_Some in Hf as [? _].
  - destruct (b_cash data) as [l|] eqn:Hl; simpl; [|by left].
    right. right. right. exists data, l. split_and!; [by left|done..].
  - assert (cash (restoreFromCloud_collections data last_seller last_buyer st)
            = default (cash st) (b_cash data)) as ->
      by (unfold restoreFromCloud_collections;
          by destruct last_buyer, last_seller).
    destruct (b_cash data) as [l|] eqn:Hl; simpl; [|by left].
    right. right. right. exists data, l.
    split_and!; [right; by eexists _, _|done..].
Qed.

(** X15: once an amount is accepted, adding or deducting cash and then
    deleting the entry by its identifier gives back the state before, even
    when an older entry bears the same identifier; deleting an identifier
    the ledger does not hold changes nothing. *)
Theorem cash_add_then_delete (src note_in uid : string) (a : num) (now : Z)
  (st : State) :
  str_truthy src = true → isNaN a = false → le0 a = false →
  deleteCash uid (addCash src a note_in uid now st) = st
  ∧ deleteCash uid (deductCash src a note_in uid now st) = st
  ∧ (∀ i, (∀ e, e ∈ cash st → cash_id e ≠ i) → deleteCash i st = st).
Proof.
  intros Hs Hn Hz. unfold addCash, deductCash, deleteCash.
  rewrite Hs, Hn, Hz. simpl.
  rewrite !decide_True by done. simpl. split_and!; try by destruct st.
  intros i Hi.
  destruct (list_find _ (cash st)) as [[idx e]|] eqn:Hf; [|done].
  apply list_find_Some in Hf as (Hl & He & _).
  exfalso. apply (Hi e); [|done]. by eapply list_elem_of_lookup_2.
Qed.

Lemma cash_add_then_delete_witness :
  deleteCash "c9" (addCash "GCash" 20%float "float" "c9" 8 one_paid_sale)
  = one_paid_sale.
Proof.
  apply (cash_add_then_delete "GCash" "float" "c9" 20%float 8 one_paid_sale);
    reflexivity.
Defined.

Lemma foldl_cons_reverse {A B} (f : A → B) (l : list A) (acc : list B) :
  foldl (λ ls x, f x :: ls) acc l = (reverse (f <$> l) ++ acc)%list.
Proof.
  revert acc. induction l as [|x l IH]; intros acc; [done|].
  rewrite fmap_cons, reverse_cons, <- app_assoc. simpl foldl. by rewrite IH.
Qed.

Lemma listSeller_forsale (sellerName : string) (uid : nat → string)
  (now : nat → Z) (st : State) :
  forsale (listSeller sellerName true uid now st)
  = (reverse (imap (λ k it, listing_of it (uid k) (now k))
                (filter (λ i, seller_bucket i = sellerName) (bought st)))
     ++ forsale st)%list.
Proof.
  unfold listSeller. simpl.
  rewrite (foldl_cons_reverse (λ ki, listing_of ki.2 (uid ki.1) (now ki.1))).
  by rewrite fmap_imap.
Qed.

(** X16: "List Seller" moves the whole group.  Afterwards no inventory item
    is shown under that seller, the items of the other groups are all still
    there, the new listings are the group's items in reverse order on top
    of the old listings, no card is lost or duplicated, and the sold list
    and the cash ledger are untouched.  Items without a seller form the
    group "(No seller)".  Declining the confirmation changes nothing. *)
Theorem listSeller_moves_group (sellerName : string) (uid : nat → string)
  (now : nat → Z) (st : State) :
  let st' := listSeller sellerName true uid now st in
  let moved := filter (λ i, seller_bucket i = sellerName) (bought st) in
  (∀ i, i ∈ bought st' → seller_bucket i ≠ sellerName)
  ∧ (∀ i, i ∈ bought st → seller_bucket i ≠ sellerName → i ∈ bought st')
  ∧ forsale st'
    = (reverse (imap (λ k it, listing_of it (uid k) (now k)) moved)
       ++ forsale st)%list
  ∧ (length (bought st') + length (forsale st'))%nat
    = (length (bought st) + length (forsale st))%nat
  ∧ sold st' = sold st ∧ cash st' = cash st
  ∧ (∀ i, i ∈ bought st → seller i = None ∨ seller i = Some "" →
          seller_bucket i = "(No seller)")
  ∧ listSeller sellerName false uid now st = st.
Proof.
  intros st' moved. subst st'.
  rewrite (listSeller_forsale sellerName uid now st). fold moved.
  unfold listSeller. simpl. split_and!; try done.
  - intros i Hi. by apply list_elem_of_filter in Hi as [? _].
  - intros i Hi Hne. by apply list_elem_of_filter.
  - rewrite length_app, length_reverse, length_imap.
    pose proof (length_filter_split (λ i, seller_bucket i = sellerName)
                  (bought st)) as Hsplit.
    fold moved in Hsplit. lia.
  - intros i _ [Hs|Hs]; unfold seller_bucket; by rewrite Hs.
Qed.

Lemma ids_retag_seller (nm target : string) (l : list item) :
  id <$> retag_seller nm target l = id <$> l.
Proof.
  unfold retag_seller. rewrite <- list_fmap_compose.
  apply list_fmap_ext. intros k x _. simpl. by case_bool_decide.
Qed.

Lemma ids_retag_buyer (nm target : string) (l : list item) :
  id <$> retag_buyer nm target l = id <$> l.
Proof.
  unfold retag_buyer. rewrite <- list_fmap_compose.
  apply list_fmap_ext. intros k x _. simpl. by case_bool_decide.
Qed.

Lemma ids_delete_sublist (idx : nat) (l : list item) :
  (id <$> delete idx l) `sublist_of` (id <$> l).
Proof. rewrite list_fmap_delete. apply sublist_delete. Qed.

Lemma NoDup_three_sub (b f s b' f' s' : list string) :
  b' `sublist_of` b → f' `sublist_of` f → s' `sublist_of` s →
  NoDup (b ++ f ++ s)%list → NoDup (b' ++ f' ++ s')%list.
Proof.
  intros Hb Hf Hs Hnd. eapply sublist_NoDup; [exact Hnd|].
  by repeat apply sublist_app.
Qed.

(** The identifiers of the listings that "List Seller" makes. *)
Lemma ids_listings (uid : nat → string) (now : nat → Z) (l : list item) :
  id <$> imap (λ k it, listing_of it (uid k) (now k)) l
  = uid <$> seq 0 (length l).
Proof.
  revert uid now. induction l as [|x l IH]; intros uid now; [done|].
  rewrite imap_cons. simpl. f_equal.
  rewrite <- fmap_S_seq, <- list_fmap_compose.
  apply (IH (uid ∘ S) (now ∘ S)).
Qed.

(** X17: as long as [Util.uid()] returns identifiers that no card bears,
    the identifiers of the cards stay pairwise distinct across the
    inventory, the listings and the sold list, whatever the action other
    than the restore of a backup, which puts the cards of the file in. *)
Theorem card_ids_stay_unique (a : action) (st : State) :
  NoDup (card_ids st) → fresh_uid a st → ¬ restores a →
  NoDup (card_ids (run a st)).
Proof.
  unfold card_ids. intros Hnd Hfresh Hnr. destruct a; simpl in *;
    unfold card_ids in *.
  - unfold sellerSelect_change. case_match; [|done].
    by destruct (chooseSellerFlow_cards sel_value answer st)
      as (-> & -> & -> & _).
  - destruct (addBought_stores sel_value answer buy_in ship_in_ sell_in
                has_file card_name imageUrl uid now st)
      as (-> & -> & _ & ->).
    destruct imageUrl; [|done]. case_match; [|done].
    simpl. by apply NoDup_cons.
  - unfold listForSale.
    destruct (findIndex i (bought st)) as [[idx it]|] eqn:Hf; [|done].
    simpl. rewrite <- Permutation_middle. apply NoDup_cons. split.
    + intros Hin. apply Hfresh. revert Hin. rewrite !elem_of_app.
      intros [Hin|Hin]; [left|by right].
      eapply elem_of_sublist; [exact Hin|apply ids_delete_sublist].
    + eapply NoDup_three_sub; [apply ids_delete_sublist|done..].
  - unfold deleteBought. repeat case_match; try done. simpl.
    eapply NoDup_three_sub; [apply ids_delete_sublist|done..].
  - destruct confirmed; [|done].
    rewrite (listSeller_forsale sellerName uid now st).
    unfold listSeller. simpl.
    set (moved := filter (λ i, seller_bucket i = sellerName) (bought st)) in *.
    destruct Hfresh as [Hu Hnew].
    rewrite fmap_app, fmap_reverse, ids_listings, <- app_assoc.
    rewrite reverse_Permutation, Permutation_app_swap_app.
    apply NoDup_app. split_and!; [done| |].
    + intros x Hx Hin. apply list_elem_of_fmap in Hx as (k & -> & Hk).
      apply elem_of_seq in Hk. apply (Hnew k); [lia|].
      eapply elem_of_sublist; [exact Hin|].
      repeat apply sublist_app; try done.
      apply fmap_sublist, sublist_filter.
    + eapply NoDup_three_sub; [|done|done|done].
      apply fmap_sublist, sublist_filter.
  - unfold resetAll_cards. destruct confirmed; [|done]. simpl. constructor.
  - unfold renameSeller. repeat case_match; simpl; try done.
    all: by rewrite !ids_retag_seller.
  - unfold deleteSeller. repeat case_match; simpl; try done.
    all: by rewrite !ids_retag_seller.
  - by destruct (chooseBuyerFlow_cards sel_value answer st)
      as (-> & -> & -> & _).
  - unfold addForSale. case_match; [done|]. case_match; [|done]. simpl.
    rewrite <- Permutation_middle. by apply NoDup_cons.
  - eapply NoDup_three_sub; [done| |done|done].
    apply fmap_sublist, sublist_filter.
  - destruct (findIndex i (forsale st)) as [[idx it]|] eqn:Hf.
    + destruct (markSold_found i sel_value new_buyer answer now st idx it Hf)
        as (-> & -> & -> & _).
      apply findIndex_Some in Hf as [Hl _].
      assert ((id <$> forsale st) !! idx = Some (id it)) as Hl'
        by (by rewrite list_lookup_fmap, Hl).
      apply delete_Permutation in Hl'.
      rewrite fmap_cons, list_fmap_delete.
      cbn [id set_status set_soldAt set_buyer].
      set (B := id <$> bought st) in *. set (F := id <$> forsale st) in *.
      set (S := id <$> sold st) in *.
      rewrite Hl' in Hnd. simpl in Hnd. rewrite <- Permutation_middle in Hnd.
      by rewrite <- !Permutation_middle.
    + by destruct (markSold_missing i sel_value new_buyer answer now st Hf)
        as (-> & -> & -> & _).
  - unfold renameBuyer. repeat case_match; simpl; try done.
    all: by rewrite !ids_retag_buyer.
  - unfold deleteBuyer. by repeat case_match.
  - unfold markPaid.
    destruct (findIndex i (sold st)) as [[idx it]|] eqn:Hf; [|done].
    simpl. apply findIndex_Some in Hf as [Hl _].
    rewrite list_fmap_insert. simpl.
    rewrite list_insert_id; [done|]. by rewrite list_lookup_fmap, Hl.
  - unfold markAllPaid. case_bool_decide; [done|]. simpl.
    rewrite <- list_fmap_compose.
    rewrite (list_fmap_ext _ id (sold st)); [done|].
    intros k x _. simpl. by destruct (pending_of b x).
  - unfold setShippingFee. by repeat case_match.
  - unfold addToCash. by repeat case_match.
  - unfold deleteSold. repeat case_match; try done. simpl.
    eapply NoDup_three_sub; [done|done|apply ids_delete_sublist|done].
  - unfold addCash. by repeat case_match.
  - unfold deductCash. by repeat case_match.
  - unfold deleteCash. by repeat case_match.
  - by destruct Hnr.
  - by destruct Hnr.
Qed.

Lemma card_ids_stay_unique_witness :
  NoDup (card_ids (run (ListForSale "b1" "n1" 5) seller_A_everywhere)).
Proof.
  apply (card_ids_stay_unique (ListForSale "b1" "n1" 5) seller_A_everywhere).
  - apply (bool_decide_unpack _). reflexivity.
  - apply (bool_decide_unpack _). reflexivity.
  - intros H. exact H.
Defined.

(** *** The registries as sets *)

Lemma NoDup_Set_add (x : string) (s : list string) :
  NoDup s → NoDup (Set_add x s).
Proof.
  intros Hs. unfold Set_add. case_bool_decide as Hx; [done|].
  apply NoDup_app. split_and!; [done| |apply NoDup_singleton].
  intros y Hy Hy'. apply list_elem_of_singleton in Hy'. by subst.
Qed.

Lemma NoDup_Set_delete (x : string) (s : list string) :
  NoDup s → NoDup (Set_delete x s).
Proof.
  intros Hs. unfold Set_delete.
  eapply sublist_NoDup; [exact Hs|apply sublist_filter].
Qed.

Lemma Set_of_from (acc l : list string) :
  NoDup acc →
  NoDup (foldl (λ s x, Set_add x s) acc l)
  ∧ (∀ x, x ∈ foldl (λ s x, Set_add x s) acc l ↔ x ∈ acc ∨ x ∈ l).
Proof.
  revert acc. induction l as [|y l IH]; intros acc Hacc; simpl.
  - split; [done|]. intros x. rewrite elem_of_nil. tauto.
  - destruct (IH (Set_add y acc) (NoDup_Set_add y acc Hacc)) as [Hnd Hin].
    split; [done|]. intros x. rewrite Hin, elem_of_Set_add, elem_of_cons.
    tauto.
Qed.

Lemma NoDup_Set_of (l : list string) : NoDup (Set_of l).
Proof. apply (Set_of_from [] l). constructor. Qed.

Lemma elem_of_Set_of (x : string) (l : list string) : x ∈ Set_of l ↔ x ∈ l.
Proof.
  unfold Set_of. destruct (Set_of_from [] l ltac:(constructor)) as [_ ->].
  rewrite elem_of_nil. tauto.
Qed.

Lemma Set_of_app_NoDup (acc l : list string) :
  NoDup (acc ++ l)%list → foldl (λ s x, Set_add x s) acc l = (acc ++ l)%list.
Proof.
  revert acc. induction l as [|y l IH]; intros acc Hnd; simpl.
  - by rewrite app_nil_r.
  - assert (Set_add y acc = (acc ++ [y])%list) as ->.
    { unfold Set_add. rewrite bool_decide_eq_false_2; [done|].
      apply NoDup_app in Hnd as (_ & Hd & _). intros Hy.
      apply (Hd y Hy). left. }
    rewrite IH; rewrite <- app_assoc; done.
Qed.

(** A list without duplicates is the set made of it. *)
Lemma Set_of_NoDup (l : list string) : NoDup l → Set_of l = l.
Proof. intros Hl. unfold Set_of. by rewrite Set_of_app_NoDup. Qed.

Create HintDb registry.
#[local] Hint Resolve NoDup_Set_add NoDup_Set_delete NoDup_Set_of : registry.

Ltac registry :=
  repeat (first [ match goal with
                  | |- context [if ?c then _ else _] => destruct c
                  end
                | case_match ]; simpl);
  solve [by left | right; eauto with registry].

(** Every handler, a restore apart, leaves a registry as it is or writes
    it from a set. *)
Lemma run_registries (a : action) (st : State) :
  ¬ restores a →
  (sellers (run a st) = sellers st ∨ NoDup (sellers (run a st)))
  ∧ (buyers (run a st) = buyers st ∨ NoDup (buyers (run a st))).
Proof.
  intros Hnr. destruct a; simpl; try (by destruct Hnr).
  - unfold sellerSelect_change, chooseSellerFlow, addSeller. split; registry.
  - unfold addBought, chooseSellerFlow, addSeller. split; registry.
  - unfold listForSale. split; registry.
  - unfold deleteBought. split; registry.
  - unfold listSeller. split; registry.
  - unfold resetAll_cards. split; registry.
  - unfold renameSeller, showManageSellersModal. split; registry.
  - unfold deleteSeller, showManageSellersModal. split; registry.
  - unfold chooseBuyerFlow, addBuyer. split; registry.
  - unfold addForSale. split; registry.
  - split; by left.
  - unfold markSold, resolveBuyer, chooseBuyerFlow, addBuyer. split; registry.
  - unfold renameBuyer, showManageBuyersModal. split; registry.
  - unfold deleteBuyer, showManageBuyersModal. split; registry.
  - unfold markPaid. split; registry.
  - unfold markAllPaid. split; registry.
  - unfold setShippingFee. split; registry.
  - unfold addToCash. split; registry.
  - unfold deleteSold. split; registry.
  - unfold addCash. split; registry.
  - unfold deductCash. split; registry.
  - unfold deleteCash. split; registry.
Qed.

(** X18: the handlers write the registries as sets.  Whatever the action
    other than the restore of a backup, the seller registry afterwards is
    the registry before or holds no name twice, and so for the buyer
    registry; hence, from the empty page and along any run of such
    actions, neither registry ever holds a name twice. *)
Theorem registries_hold_no_duplicate (a : action) (st : State)
  (l : list action) :
  ¬ restores a → Forall (λ a, ¬ restores a) l →
  (sellers (run a st) = sellers st ∨ NoDup (sellers (run a st)))
  ∧ (buyers (run a st) = buyers st ∨ NoDup (buyers (run a st)))
  ∧ NoDup (sellers (runs l initial)) ∧ NoDup (buyers (runs l initial)).
Proof.
  intros Ha Hl.
  destruct (run_registries a st Ha) as [Hs Hb]. split_and!; [done..| |].
  all: unfold runs.
  all: assert (NoDup (sellers initial) ∧ NoDup (buyers initial)) as Hinit
    by (split; constructor).
  all: revert Hinit; generalize initial.
  all: induction Hl as [|x l Hx Hl IH]; intros s [Hs0 Hb0]; simpl; [done|].
  all: apply IH; destruct (run_registries x s Hx) as [[->|?] [->|?]]; done.
Qed.

Lemma registries_hold_no_duplicate_witness :
  NoDup (buyers (runs [AddForSale 150%float true "Card" (Some "img") "f1";
                       MarkSold "f1" "" None (Some "Bea") 6] initial)).
Proof.
  refine (proj2 (proj2 (proj2
    (registries_hold_no_duplicate (MarkPaid "f1") initial
       [AddForSale 150%float true "Card" (Some "img") "f1";
        MarkSold "f1" "" None (Some "Bea") 6] _ _)))).
  - intros H. exact H.
  - repeat constructor; intros H; exact H.
Defined.

(** X19: [addSeller] stores the registry as a set: no name twice, every
    name it held still in it, the new name in it when it is not empty.
    Adding a name again, or adding a name a duplicate-free registry already
    holds, changes nothing. *)
Theorem addSeller_upsert (nm : string) (st : State) :
  NoDup (sellers (addSeller nm st))
  ∧ (∀ x, x ∈ sellers st → x ∈ sellers (addSeller nm st))
  ∧ (nm ≠ "" → nm ∈ sellers (addSeller nm st))
  ∧ (∀ x, x ∈ sellers (addSeller nm st) → x = nm ∨ x ∈ sellers st)
  ∧ addSeller nm (addSeller nm st) = addSeller nm st
  ∧ (NoDup (sellers st) → nm ∈ sellers st → addSeller nm st = st).
Proof.
  unfold addSeller. destruct (str_truthy nm) eqn:Hnm; simpl.
  - split_and!.
    + apply NoDup_Set_add, NoDup_Set_of.
    + intros x Hx. rewrite elem_of_Set_add, elem_of_Set_of. by right.
    + intros _. rewrite elem_of_Set_add. by left.
    + intros x. by rewrite elem_of_Set_add, elem_of_Set_of.
    + unfold save_sellers. simpl. f_equal.
      rewrite Set_of_NoDup by (apply NoDup_Set_add, NoDup_Set_of).
      unfold Set_add at 1. rewrite bool_decide_eq_true_2; [done|].
      rewrite elem_of_Set_add. by left.
    + intros Hnd Hin. rewrite Set_of_NoDup by done.
      unfold Set_add. rewrite bool_decide_eq_true_2 by done. by destruct st.
  - split_and!.
    + apply NoDup_Set_of.
    + intros x. by rewrite elem_of_Set_of.
    + intros Hne. apply str_truthy_true in Hne. congruence.
    + intros x. rewrite elem_of_Set_of. by right.
    + unfold save_sellers. simpl. f_equal.
      rewrite Set_of_NoDup by apply NoDup_Set_of. done.
    + intros Hnd _. rewrite Set_of_NoDup by done. by destruct st.
Qed.

(** *** Cascades: buyers, and sellers that are deleted *)

Lemma seller_tag_set_any (s : string) (i : item) :
  seller_tag (set_seller s i) = s.
Proof.
  unfold seller_tag. simpl. unfold str_truthy. by case_bool_decide.
Qed.

Lemma buyer_tag_set_any (s : string) (i : item) :
  buyer_tag (set_buyer s i) = s.
Proof.
  unfold buyer_tag. simpl. unfold str_truthy. by case_bool_decide.
Qed.

Lemma retag_seller_gone (nm target : string) (l : list item) (i : item) :
  target ≠ nm → i ∈ retag_seller nm target l → seller_tag i ≠ nm.
Proof.
  intros Hne Hi. unfold retag_seller in Hi.
  apply list_elem_of_fmap in Hi as (x & -> & _).
  case_bool_decide as Hx; [|done]. by rewrite seller_tag_set_any.
Qed.

Lemma retag_seller_tally (nm target : string) (l : list item) :
  target ≠ nm →
  tagged target (retag_seller nm target l)
  = (tagged nm l + tagged target l)%nat.
Proof.
  intros Hne. unfold tagged, retag_seller.
  induction l as [|x l IH]; [done|].
  rewrite fmap_cons, !filter_cons.
  fold (seller_tag x). destruct (decide (seller_tag x = nm)) as [Hx|Hx].
  - rewrite bool_decide_eq_true_2 by done.
    rewrite decide_True by apply seller_tag_set_any.
    rewrite decide_False by congruence. simpl. by rewrite IH.
  - rewrite bool_decide_eq_false_2 by done.
    destruct (decide (seller_tag x = target)); simpl; rewrite IH; lia.
Qed.

Lemma retag_buyer_gone (nm target : string) (l : list item) (i : item) :
  target ≠ nm → i ∈ retag_buyer nm target l → buyer_tag i ≠ nm.
Proof.
  intros Hne Hi. unfold retag_buyer in Hi.
  apply list_elem_of_fmap in Hi as (x & -> & _).
  fold (buyer_tag x). case_bool_decide as Hx; [|done].
  by rewrite buyer_tag_set_any.
Qed.

Lemma retag_buyer_tally (nm target : string) (l : list item) :
  target ≠ nm →
  bought_by target (retag_buyer nm target l)
  = (bought_by nm l + bought_by target l)%nat.
Proof.
  intros Hne. unfold bought_by, retag_buyer.
  induction l as [|x l IH]; [done|].
  rewrite fmap_cons, !filter_cons.
  fold (buyer_tag x). destruct (decide (buyer_tag x = nm)) as [Hx|Hx].
  - rewrite bool_decide_eq_true_2 by done.
    rewrite decide_True by apply buyer_tag_set_any.
    rewrite decide_False by congruence. simpl. by rewrite IH.
  - rewrite bool_decide_eq_false_2 by done.
    destruct (decide (buyer_tag x = target)); simpl; rewrite IH; lia.
Qed.

(** A retag changes the buyer of a record and nothing else. *)
Lemma retag_buyer_keeps (nm target : string) (l : list item) (k : nat)
  (i : item) :
  l !! k = Some i →
  ∃ i', retag_buyer nm target l !! k = Some i'
        ∧ id i' = id i ∧ price i' = price i ∧ status i' = status i
        ∧ seller i' = seller i.
Proof.
  intros Hk. unfold retag_buyer. rewrite list_lookup_fmap, Hk. simpl.
  eexists. split; [reflexivity|]. by case_bool_decide.
Qed.

(** X20: renaming buyer A to a non-empty B different from A updates the
    sold list and the listings: no record of the two is left with buyer A,
    the records that had A are counted under B, every record keeps its
    position, identifier, price, status and seller, and the last-buyer
    pointer follows when it was A.  The registry drops A and holds B; the
    inventory and the cash ledger are untouched.  An empty or unchanged
    name, or a cancelled prompt, changes nothing. *)
Theorem renameBuyer_cascade (A B : string) (buyersSet : list string)
  (st : State) :
  B ≠ "" → A ≠ B →
  let st' := (renameBuyer A (Some B) buyersSet st).2 in
  (∀ i : item, i ∈ (sold st' ++ forsale st')%list → buyer_tag i ≠ A)
  ∧ bought_by B (sold st') = (bought_by A (sold st) + bought_by B (sold st))%nat
  ∧ bought_by B (forsale st')
    = (bought_by A (forsale st) + bought_by B (forsale st))%nat
  ∧ (∀ k i, sold st !! k = Some i →
       ∃ i', sold st' !! k = Some i'
             ∧ id i' = id i ∧ price i' = price i ∧ status i' = status i
             ∧ seller i' = seller i)
  ∧ bought st' = bought st ∧ cash st' = cash st
  ∧ (buyer_last st = Some A → buyer_last st' = Some B)
  ∧ (buyer_last st ≠ Some A → buyer_last st' = buyer_last st)
  ∧ (A ∉ buyers st') ∧ (B ∈ buyers st')
  ∧ (renameBuyer A None buyersSet st).2 = st
  ∧ (renameBuyer A (Some "") buyersSet st).2 = st
  ∧ (renameBuyer A (Some A) buyersSet st).2 = st.
Proof.
  intros HB HAB st'. subst st'. unfold renameBuyer.
  assert (str_truthy B = true) as HBt by (by apply str_truthy_true).
  rewrite HBt, (bool_decide_eq_false_2 (B = A)) by congruence.
  rewrite (bool_decide_eq_true_2 (A = A)) by done.
  cbv zeta beta iota. unfold negb, orb.
  assert (∀ s, (if bool_decide (buyer_last s = Some A)
                then set_buyer_last (Some B) s else s)
               = set_buyer_last
                   (if bool_decide (buyer_last s = Some A)
                    then Some B else buyer_last s) s) as Hptr.
  { intros s. case_bool_decide; [done|by destruct s]. }
  rewrite Hptr. simpl.
  split_and!; try done.
  - intros i Hi.
    apply elem_of_app in Hi as [Hi|Hi];
      by apply (retag_buyer_gone A B _ i) in Hi.
  - by apply retag_buyer_tally.
  - by apply retag_buyer_tally.
  - intros k i Hk. by apply retag_buyer_keeps.
  - intros ->. by rewrite bool_decide_eq_true_2.
  - intros Hl. by rewrite bool_decide_eq_false_2.
  - rewrite elem_of_Set_add, elem_of_Set_delete. intros [?|[? _]]; done.
  - rewrite elem_of_Set_add. by left.
  - destruct (str_truthy A); done.
Qed.

Lemma renameBuyer_cascade_witness :
  bought_by "Cyd"
    (sold (run (RenameBuyer "Bea" (Some "Cyd")) seller_A_everywhere))
  = (bought_by "Bea" (sold seller_A_everywhere)
     + bought_by "Cyd" (sold seller_A_everywhere))%nat.
Proof.
  apply (renameBuyer_cascade "Bea" "Cyd"
           (showManageBuyersModal seller_A_everywhere) seller_A_everywhere);
    discriminate.
Defined.

(** X21: deleting a seller whose items go to a target other than the
    deleted name (a reassignment target, or the empty seller when the
    prompt is left blank) leaves no inventory item and no listing under
    the deleted name; they are counted under the target.  The registry
    drops the name and holds the reassignment target, and the last-seller
    pointer is removed when it was the deleted name. *)
Theorem deleteSeller_reassigns (nm : string) (reassignTo : option string)
  (sellersSet : list string) (st : State) :
  let target := if opt_truthy reassignTo then default "" reassignTo else "" in
  let st' := (deleteSeller nm true reassignTo sellersSet st).2 in
  target ≠ nm →
  (∀ i : item, i ∈ (bought st' ++ forsale st')%list → seller_tag i ≠ nm)
  ∧ tagged target (bought st')
    = (tagged nm (bought st) + tagged target (bought st))%nat
  ∧ tagged target (forsale st')
    = (tagged nm (forsale st) + tagged target (forsale st))%nat
  ∧ (opt_truthy reassignTo = true → target ∈ sellers st')
  ∧ (seller_last st = Some nm → seller_last st' = None)
  ∧ (seller_last st ≠ Some nm → seller_last st' = seller_last st).
Proof.
  intros target st' Hne. subst st'. unfold deleteSeller.
  assert (∀ (s : State),
            (if bool_decide (seller_last s = Some nm)
             then set_seller_last None s else s)
            = set_seller_last
                (if bool_decide (seller_last s = Some nm)
                 then None else seller_last s) s) as Hptr.
  { intros s. case_bool_decide; [done|by destruct s]. }
  cbv zeta beta iota. rewrite Hptr. simpl. fold target.
  split_and!.
  - intros i Hi.
    apply elem_of_app in Hi as [Hi|Hi];
      by apply (retag_seller_gone nm target _ i) in Hi.
  - by apply retag_seller_tally.
  - by apply retag_seller_tally.
  - intros Ht. subst target. rewrite Ht in *.
    destruct reassignTo as [r|]; [|done]. simpl in *. rewrite Ht.
    rewrite elem_of_Set_delete, elem_of_Set_add. split; [done|by left].
  - intros ->. by rewrite bool_decide_eq_true_2.
  - intros Hl. by rewrite bool_decide_eq_false_2.
Qed.

Lemma deleteSeller_reassigns_witness :
  tagged "Y" (bought (run (DeleteSeller "A" true (Some "Y"))
                        seller_A_everywhere))
  = (tagged "A" (bought seller_A_everywhere)
     + tagged "Y" (bought seller_A_everywhere))%nat.
Proof.
  apply (deleteSeller_reassigns "A" (Some "Y")
           (showManageSellersModal seller_A_everywhere) seller_A_everywhere).
  discriminate.
Defined.

(** X22: the shipping fee of a buyer.  A cancelled prompt or an answer that
    is not a number leaves everything as it is.  Any other number is stored
    under the buyer, also when the stored value was not an object, as JSON
    writes it: the row of that buyer then shows the number entered when it
    is finite, and a fee of zero when it is infinite (stored as [null]); the
    net of the row is its gross minus that fee; the fee of every other
    buyer is as before, and so are the collections.  Under the name
    [__proto__] nothing is stored unless the map holds the name already. *)
Theorem setShippingFee_effect (b b' : string) (n : num) (st : State)
  (l : list item) :
  isNaN n = false → b ≠ "__proto__" →
  let st' := setShippingFee b (Some n) st in
  setShippingFee b None st = st
  ∧ setShippingFee b (Some NaN) st = st
  ∧ shipping st' = Some (<[b := json_number n]> (plain_object (shipping st)))
  ∧ (PrimFloat.is_infinity n = false →
     row_sf (shipping st') b = num_or0 (Some n))
  ∧ (PrimFloat.is_infinity n = true → row_sf (shipping st') b = 0%float)
  ∧ row_net (shipping st') b l = sub (sum_price l) (row_sf (shipping st') b)
  ∧ (b' ≠ b → row_sf (shipping st') b' = row_sf (shipping st) b')
  ∧ (bought st', forsale st', sold st', cash st', sellers st', buyers st')
    = (bought st, forsale st, sold st, cash st, sellers st, buyers st)
  ∧ (plain_object (shipping st) !! "__proto__" = None →
     plain_object (shipping (setShippingFee "__proto__" (Some n) st))
     = plain_object (shipping st)).
Proof.
  intros Hn Hb st'. subst st'. unfold setShippingFee. rewrite Hn.
  rewrite (bool_decide_eq_false_2 (b = "__proto__")) by done. simpl.
  assert (row_sf (Some (<[b := json_number n]> (plain_object (shipping st))))
            b = num_or0 (json_number n)) as Hsf.
  { unfold row_sf. simpl. by rewrite lookup_insert_eq. }
  split_and!; try done.
  - intros Hi. rewrite Hsf, num_or0_json_number.
    unfold isNaN in Hn. by rewrite Hn, Hi.
  - intros Hi. rewrite Hsf, num_or0_json_number.
    unfold isNaN in Hn. by rewrite Hn, Hi.
  - intros Hne. unfold row_sf. simpl. by rewrite lookup_insert_ne.
  - intros Hp. by rewrite Hp.
Qed.

Lemma setShippingFee_effect_witness :
  row_sf (shipping (setShippingFee "Bea" (Some 40%float) one_paid_sale)) "Bea"
  = 40%float
  ∧ row_sf (shipping (setShippingFee "Bea" (Some Infinity) one_paid_sale))
      "Bea" = 0%float.
Proof.
  split.
  - refine (proj1 (proj2 (proj2 (proj2
      (setShippingFee_effect "Bea" "Cyd" 40%float one_paid_sale [] _ _)))) _);
      [reflexivity|discriminate|reflexivity].
  - refine (proj1 (proj2 (proj2 (proj2 (proj2
      (setShippingFee_effect "Bea" "Cyd" Infinity one_paid_sale [] _ _))))) _);
      [reflexivity|discriminate|reflexivity].
Defined.

(** X26: the three delete buttons of the card pages.  The listings button
    removes every listing with the identifier and keeps the others in
    order.  The inventory and sold buttons remove one record, the first
    with the identifier, when the user confirms: the list gets one shorter,
    and with distinct identifiers no record with it is left; every other
    record stays where it was, and nothing else changes.  An identifier the
    list does not hold, or a declined confirmation, changes nothing. *)
Theorem delete_buttons (i : string) (st : State) :
  (∀ x, x ∈ forsale (deleteListing i st) ↔ x ∈ forsale st ∧ id x ≠ i)
  ∧ deleteListing i (deleteListing i st) = deleteListing i st
  ∧ deleteBought i false st = st ∧ deleteSold i false st = st
  ∧ ((∀ x, x ∈ bought st → id x ≠ i) → deleteBought i true st = st)
  ∧ ((∀ x, x ∈ sold st → id x ≠ i) → deleteSold i true st = st)
  ∧ (∀ x, x ∈ bought st → id x = i →
       S (length (bought (deleteBought i true st))) = length (bought st)
       ∧ (NoDup (id <$> bought st) →
          ∀ y, y ∈ bought (deleteBought i true st) → id y ≠ i))
  ∧ (∀ x, x ∈ sold st → id x = i →
       S (length (sold (deleteSold i true st))) = length (sold st)
       ∧ (NoDup (id <$> sold st) →
          ∀ y, y ∈ sold (deleteSold i true st) → id y ≠ i))
  ∧ (∀ idx y, findIndex i (bought st) = Some (idx, y) →
       deleteBought i true st = save_bought (delete idx (bought st)) st
       ∧ ∀ j z, bought st !! j = Some z → (j < idx)%nat → id z ≠ i)
  ∧ (∀ idx y, findIndex i (sold st) = Some (idx, y) →
       deleteSold i true st = save_sold (delete idx (sold st)) st
       ∧ ∀ j z, sold st !! j = Some z → (j < idx)%nat → id z ≠ i).
Proof.
  assert (∀ l : list item,
            (∀ x, x ∈ l → id x ≠ i) → findIndex i l = None) as Hnone.
  { intros l Hl. unfold findIndex.
    destruct (list_find _ l) as [[idx x]|] eqn:Hf; [|done].
    apply list_find_Some in Hf as (Hx & Hid & _).
    exfalso. apply (Hl x); [|done]. by eapply list_elem_of_lookup_2. }
  assert (∀ (l : list item) x,
            x ∈ l → id x = i → ∃ idx y, findIndex i l = Some (idx, y)) as Hsome.
  { intros l x Hx Hid. unfold findIndex.
    destruct (list_find (λ x, id x = i) l) as [[idx y]|] eqn:Hf; [eauto|].
    exfalso. eapply list_find_None in Hf. rewrite Forall_forall in Hf.
    by apply (Hf x). }
  split_and!; try done.
  - intros x. unfold deleteListing. simpl. rewrite list_elem_of_filter. tauto.
  - unfold deleteListing, save_forsale. simpl. f_equal.
    by apply list_filter_filter_l.
  - intros Hb. unfold deleteBought. by rewrite (Hnone _ Hb).
  - intros Hs. unfold deleteSold. by rewrite (Hnone _ Hs).
  - intros x Hx Hid. unfold deleteBought.
    destruct (Hsome _ x Hx Hid) as (idx & y & Hf). rewrite Hf. simpl.
    apply findIndex_Some in Hf as [Hl Hy]. split.
    + rewrite length_delete by eauto. apply lookup_lt_Some in Hl. lia.
    + intros Hnd z Hz. rewrite <- Hy. by eapply delete_found_gone.
  - intros x Hx Hid. unfold deleteSold.
    destruct (Hsome _ x Hx Hid) as (idx & y & Hf). rewrite Hf. simpl.
    apply findIndex_Some in Hf as [Hl Hy]. split.
    + rewrite length_delete by eauto. apply lookup_lt_Some in Hl. lia.
    + intros Hnd z Hz. rewrite <- Hy. by eapply delete_found_gone.
  - intros idx y Hf. unfold deleteBought. rewrite Hf. split; [done|].
    apply list_find_Some in Hf as (_ & _ & Hfirst). eauto.
  - intros idx y Hf. unfold deleteSold. rewrite Hf. split; [done|].
    apply list_find_Some in Hf as (_ & _ & Hfirst). eauto.
Qed.

End LedgerExtras.

(* ===================================================================== *)
(** ** [Util.esc] *)
(* ===================================================================== *)

Module UtilExtras.
Import Util.

Lemma chars_app (s1 s2 : string) :
  list_ascii_of_string (s1 ++ s2)
  = (list_ascii_of_string s1 ++ list_ascii_of_string s2)%list.
Proof. induction s1 as [|c s1 IH]; [done|]. simpl. by rewrite IH. Qed.

Lemma special_markup (c : ascii) : special c = false → markup c = false.
Proof.
  unfold special, markup. destruct (Ascii.eqb c "&"); simpl; [discriminate|].
  done.
Qed.

Lemma esc_char_safe (c c' : ascii) :
  In c' (list_ascii_of_string (esc_char c)) → markup c' = false.
Proof.
  unfold esc_char.
  destruct (Ascii.eqb c "&") eqn:H1;
    [simpl; intros H; repeat destruct H as [<-|H]; done|].
  destruct (Ascii.eqb c "<") eqn:H2;
    [simpl; intros H; repeat destruct H as [<-|H]; done|].
  destruct (Ascii.eqb c ">") eqn:H3;
    [simpl; intros H; repeat destruct H as [<-|H]; done|].
  destruct (Ascii.eqb c dquote) eqn:H4;
    [simpl; intros H; repeat destruct H as [<-|H]; done|].
  destruct (Ascii.eqb c "'") eqn:H5;
    [simpl; intros H; repeat destruct H as [<-|H]; done|].
  simpl. intros [<-|[]]. unfold markup. by rewrite H2, H3, H4, H5.
Qed.

Lemma esc_char_plain (c : ascii) :
  special c = false → esc_char c = String c EmptyString.
Proof.
  unfold special, esc_char.
  destruct (Ascii.eqb c "&"), (Ascii.eqb c "<"), (Ascii.eqb c ">"),
    (Ascii.eqb c dquote), (Ascii.eqb c "'"); simpl; done.
Qed.

(** X23: the text [Util.esc] returns holds no less-than, greater-than,
    double-quote or apostrophe character, whatever the input; a text with
    none of the five special characters is returned as it is. *)
Theorem esc_safe (s : string) :
  (∀ c, In c (list_ascii_of_string (esc s)) → markup c = false)
  ∧ ((∀ c, In c (list_ascii_of_string s) → special c = false) → esc s = s).
Proof.
  induction s as [|c s [IH1 IH2]]; [by split|]. split.
  - intros c'. simpl esc. rewrite chars_app, in_app_iff.
    intros [H|H]; [by apply (esc_char_safe c)|by apply IH1].
  - intros Hs. simpl esc. rewrite esc_char_plain by (apply Hs; by left).
    simpl. f_equal. apply IH2. intros c' Hc'. apply Hs. by right.
Qed.

End UtilExtras.

(* ===================================================================== *)
(** ** More on the backup endpoints *)
(* ===================================================================== *)

Module BackupExtras.
Import Backup Notions BackupTheorems MoreNotions.

Lemma pick_latest_last (l : list row) (r : row) :
  (∀ x, x ∈ l → (created_at x < created_at r)%Z) →
  pick_latest (l ++ [r]) = Some r.
Proof.
  intros Hl. unfold pick_latest. rewrite foldr_app. simpl.
  induction l as [|x l IH]; [done|]. simpl.
  rewrite IH by (intros y Hy; apply Hl; by right).
  rewrite bool_decide_eq_false_2; [done|].
  specialize (Hl x ltac:(left)). lia.
Qed.

(** After an insertion on a table whose rows are older than the clock,
    the latest row is the one inserted. *)
Lemma latest_after_insert (lbl : string) (pl : json) (db : Db) :
  (∀ x, x ∈ rows db → (created_at x < clock db)%Z) →
  latest_row (insert_row lbl pl db).2
  = Some (mkRow (next_id db) (clock db) lbl pl).
Proof.
  intros Hold. unfold latest_row, insert_row. simpl.
  rewrite reverse_cons.
  apply (pick_latest_last (reverse (rows db))
           (mkRow (next_id db) (clock db) lbl pl)).
  intros x Hx. simpl. apply Hold. by apply elem_of_reverse.
Qed.

(** X24: a backup that was posted is the backup a GET returns next, on
    either deployment and across the two: the answer is
    [{ success: true, backup: row }] where the row carries the posted
    payload and the label (or "manual").  This holds when the posted
    payload is truthy and the rows of the table are older than the clock
    of the database, whatever the GET carries as a body (it is not read). *)
Theorem post_then_get (b : body) (pl : json) (db : Db) :
  body_payload b = Some pl → truthy pl = true →
  (∀ x, x ∈ rows db → (created_at x < clock db)%Z) →
  ∀ unread, let post := mkRequest "POST" (Carried b) in
  let get := mkRequest "GET" unread in
  let answer :=
    mkResponse 200
      (Json (JObj [("success", JBool true);
                   ("backup",
                    row_json (mkRow (next_id db) (clock db)
                                (label_or_manual (body_label b)) pl))])) in
  (handler get (handler post db).2).1 = answer
  ∧ (netlify_handler get (netlify_handler post db).2).1 = answer
  ∧ (netlify_handler get (handler post db).2).1 = answer
  ∧ (handler get (netlify_handler post db).2).1 = answer.
Proof.
  intros Hpl Ht Hold unread post get answer.
  pose proof (latest_after_insert (label_or_manual (body_label b)) pl db Hold)
    as Hlatest.
  assert ((handler post db).2
          = (insert_row (label_or_manual (body_label b)) pl db).2) as ->.
  { unfold handler. simpl. rewrite Hpl. simpl. by rewrite Ht. }
  assert ((netlify_handler post db).2
          = (insert_row (label_or_manual (body_label b)) pl db).2) as ->.
  { unfold netlify_handler. simpl. by rewrite Hpl. }
  unfold handler, netlify_handler. simpl bool_decide. cbv iota.
  rewrite Hlatest. done.
Qed.

Lemma post_then_get_witness :
  (handler get_request (netlify_handler manual_post one_backup).2).1
  = mkResponse 200
      (Json (JObj [("success", JBool true);
                   ("backup",
                    row_json (mkRow 2 11 "manual"
                                (JObj [("localStorage", JObj [])])))])).
Proof.
  refine (proj2 (proj2 (proj2 (post_then_get
           (mkBody (Some (JObj [("localStorage", JObj [])])) (Some "manual"))
           (JObj [("localStorage", JObj [])]) one_backup eq_refl eq_refl _
           (Unusable "no body"))))).
  intros x Hx. apply list_elem_of_singleton in Hx as ->. simpl. lia.
Defined.

(** X25: the table is append-only.  A request leaves the rows as they are
    or puts one new row, numbered by the database, before them, and only a
    POST does the latter.  The API handler refuses a POST without a truthy
    payload with status 400 and stores nothing, whereas the Netlify
    function stores a row for every POST that carries a JSON value other
    than [null], and answers an unusable body with status 500 and the
    message of the error, without storing. *)
Theorem backups_append_only (req : request) (db : Db) :
  (rows (handler req db).2 = rows db
   ∨ ∃ r, rows (handler req db).2 = r :: rows db ∧ row_id r = next_id db)
  ∧ (rows (netlify_handler req db).2 = rows db
     ∨ ∃ r, rows (netlify_handler req db).2 = r :: rows db
            ∧ row_id r = next_id db)
  ∧ (method req ≠ "POST" →
     (handler req db).2 = db ∧ (netlify_handler req db).2 = db)
  ∧ (method req = "POST" →
     field_truthy (body_payload (posted_body (req_body req))) = false →
     (handler req db).2 = db ∧ statusCode (handler req db).1 = 400)
  ∧ (method req = "POST" → ∀ b, req_body req = Carried b →
     ∃ r, rows (netlify_handler req db).2 = r :: rows db
          ∧ payload r = default JNull (body_payload b))
  ∧ (method req = "POST" → ∀ message, req_body req = Unusable message →
     netlify_handler req db
     = (mkResponse 500 (Json (JObj [("error", JStr message)])), db)).
Proof.
  split_and!.
  - unfold handler, insert_row. repeat case_match; simpl; try by left.
    right. eexists. split; [done|]. simplify_eq. done.
  - unfold netlify_handler, insert_row.
    repeat case_match; simpl; try by left.
    right. eexists. split; [done|]. simplify_eq. done.
  - intros Hm. unfold handler, netlify_handler.
    rewrite !(bool_decide_eq_false_2 (method req = "POST")) by done.
    by repeat case_match.
  - intros Hm Hp. unfold handler. rewrite Hm. simpl. by rewrite Hp.
  - intros Hm b Hb. unfold netlify_handler, insert_row. rewrite Hm, Hb. simpl.
    by eexists.
  - intros Hm message Hb. unfold netlify_handler. by rewrite Hm, Hb.
Qed.

End BackupExtras.
